(** * nope.db: the storage manager, embedded and verified

    The development follows [StorageManager] (utils.ts): JSON values and
    property access, key-path validation, [_find], [_findAndSet], the
    document file with [_read] and [_write], the public operations, and the
    promise chain behind [_enqueue].

    Boundaries of the embedding.
    - A number is an IEEE 754 binary64 value ([float]).
    - A property name is the name of an own property of the data: an element
      index of an array, or a key of an object.  The names that the runtime
      resolves by itself (the members of the built-in prototypes, the
      accessor [__proto__], the [length] of an array) are listed in
      [runtime_names]; the embedding treats them as ordinary names, and a
      statement that depends on the difference assumes [plain_path].
    - The separator is one character, as the facade's constructor enforces.
    - The bytes of a file are taken up to [JSON.parse]: a file holds a
      document, or bytes that do not parse. *)

From Stdlib Require Import List String Ascii Bool Arith ZArith NArith Lia.
From Stdlib Require Import Floats.
Import ListNotations.
Open Scope string_scope.
Open Scope list_scope.

Set Implicit Arguments.
Set Warnings "-register-all".

(** ** Values *)

Inductive value : Type :=
| VUndef
| VNull
| VBool (b : bool)
| VNum (f : float)
| VStr (s : string)
| VArr (elems : list value) (named : list (string * value))
| VObj (props : list (string * value)).

(** [typeof v === 'object' && v !== null] *)
Definition is_object (v : value) : bool :=
  match v with
  | VArr _ _ | VObj _ => true
  | _ => false
  end.

(** [Array.isArray(v)] *)
Definition is_array (v : value) : bool :=
  match v with
  | VArr _ _ => true
  | _ => false
  end.

(** [typeof v === "number"] *)
Definition is_number (v : value) : bool :=
  match v with
  | VNum _ => true
  | _ => false
  end.

(** [v ?? null] *)
Definition nullish (v : value) : value :=
  match v with
  | VUndef => VNull
  | _ => v
  end.

(** [v || 0] for a value that is [null] or a number: [0], [-0] and [NaN]
    are falsy. *)
Definition or_zero (v : value) : float :=
  match v with
  | VNum f => if (PrimFloat.is_zero f || PrimFloat.is_nan f)%bool
              then PrimFloat.zero else f
  | _ => PrimFloat.zero
  end.

(** ** Association lists: the own properties of an object *)

Fixpoint assoc (k : string) (m : list (string * value)) : option value :=
  match m with
  | [] => None
  | (k', v) :: m' => if String.eqb k k' then Some v else assoc k m'
  end.

(** Assignment keeps the position of an existing key and appends a new one. *)
Fixpoint assoc_set (k : string) (v : value) (m : list (string * value))
  : list (string * value) :=
  match m with
  | [] => [(k, v)]
  | (k', v') :: m' =>
      if String.eqb k k' then (k', v) :: m' else (k', v') :: assoc_set k v m'
  end.

Definition assoc_remove (k : string) (m : list (string * value))
  : list (string * value) :=
  filter (fun kv => negb (String.eqb k (fst kv))) m.

(** ** Array indices

    A name is an array index when it is the decimal numeral, without leading
    zeros, of an integer below [2^32 - 1]. *)

Definition digit_of (c : ascii) : option N :=
  let n := N_of_ascii c in
  if (48 <=? n)%N && (n <=? 57)%N then Some (n - 48)%N else None.

Fixpoint digits_value (s : string) (acc : N) : option N :=
  match s with
  | EmptyString => Some acc
  | String c s' =>
      match digit_of c with
      | Some d => digits_value s' (acc * 10 + d)%N
      | None => None
      end
  end.

Definition parse_index (s : string) : option nat :=
  match s with
  | EmptyString => None
  | String c s' =>
      if (Ascii.eqb c "0" && negb (String.eqb s' ""))%bool then None
      else match digits_value s 0%N with
           | Some n => if (n <? 4294967295)%N then Some (N.to_nat n) else None
           | None => None
           end
  end.

(** [es[i] = v], which extends the array with holes when [i] is past its
    end; a hole reads as [undefined]. *)
Fixpoint list_set (i : nat) (v : value) (es : list value) : list value :=
  match i, es with
  | O, [] => [v]
  | O, _ :: es' => v :: es'
  | S i', [] => VUndef :: list_set i' v []
  | S i', e :: es' => e :: list_set i' v es'
  end.

(** ** Property access: [current[part]]

    The own properties of the value.  What the prototype chain adds to
    them (the members of [Object.prototype] and [Array.prototype], the
    accessor [__proto__], the [length] of an array) is listed in
    [runtime_names] below; at such a name the code reads the inherited
    member where this function finds nothing.  A statement that rests on a
    name not being found is made for paths of plain names
    ([plain_path]). *)

Definition prop_get (current : value) (part : string) : value :=
  match current with
  | VObj props =>
      match assoc part props with Some v => v | None => VUndef end
  | VArr elems named =>
      match parse_index part with
      | Some i => nth i elems VUndef
      | None => match assoc part named with Some v => v | None => VUndef end
      end
  | _ => VUndef
  end.

(** Outcomes: a result, or the exception that was thrown. *)

Inductive error : Type :=
| dataNotANumber
| mustBeANumber
| mustBeArray
| nonValidID
| undefinedID
| undefinedValue
| parseError
| clearConfirm
| unableToRead        (* "Unable to read database file: ..." *)
| invalidBackupPath   (* "Invalid backup file path provided." *)
| backupNotJson       (* "The backup file path must end with '.json'." *)
| backupUnreadable    (* "Failed to read or parse backup file: ..." *)
| nativeError.        (* an exception that is not a DatabaseError *)

Inductive outcome (A : Type) : Type :=
| Ok (a : A)
| Throw (e : error).

Arguments Ok {A} a.
Arguments Throw {A} e.

(** [current[part] = v] on an object or an array. *)
Definition prop_put (current : value) (part : string) (v : value) : value :=
  match current with
  | VObj props => VObj (assoc_set part v props)
  | VArr elems named =>
      match parse_index part with
      | Some i => VArr (list_set i v elems) named
      | None => VArr elems (assoc_set part v named)
      end
  | _ => current
  end.

(** [current[part] = v] in strict mode: an assignment to a property of a
    primitive throws a TypeError.  This holds for plain names; at
    [__proto__] the inherited setter runs instead and nothing is thrown,
    so a statement that rests on this exception is made for paths of plain
    names ([plain_path]). *)
Definition prop_set (current : value) (part : string) (v : value)
  : outcome value :=
  if is_object current then Ok (prop_put current part v)
  else Throw nativeError.

(** [delete current[part]]: an element of an array becomes a hole. *)
Definition prop_delete (current : value) (part : string) : value :=
  match current with
  | VObj props => VObj (assoc_remove part props)
  | VArr elems named =>
      match parse_index part with
      | Some i => if Nat.ltb i (List.length elems) then VArr (list_set i VUndef elems) named
                  else current
      | None => VArr elems (assoc_remove part named)
      end
  | _ => current
  end.

(** ** Key paths *)

Section Paths.

Variable separator : ascii.

(** [id.split(this.separator)] *)
Fixpoint split (id : string) : list string :=
  match id with
  | EmptyString => [EmptyString]
  | String c id' =>
      if Ascii.eqb c separator then EmptyString :: split id'
      else match split id' with
           | [] => [String c EmptyString]
           | part :: parts => String c part :: parts
           end
  end.

Definition startsWith_sep (id : string) : bool :=
  match id with
  | String c _ => Ascii.eqb c separator
  | EmptyString => false
  end.

Fixpoint endsWith_sep (id : string) : bool :=
  match id with
  | EmptyString => false
  | String c EmptyString => Ascii.eqb c separator
  | String _ id' => endsWith_sep id'
  end.

(** [id.includes(this.separator + this.separator)] *)
Fixpoint includes_sep_sep (id : string) : bool :=
  match id with
  | String c ((String c' _) as id') =>
      (Ascii.eqb c separator && Ascii.eqb c' separator) || includes_sep_sep id'
  | _ => false
  end.

(** [_validateID]: [true] when no error is thrown. *)
Definition _validateID (id : string) : bool :=
  negb (String.eqb id ""
        || startsWith_sep id
        || endsWith_sep id
        || includes_sep_sep id).

(** The loop of [_find]. *)
Fixpoint find_loop (current : value) (parts : list string) : value :=
  match parts with
  | [] => nullish current
  | part :: parts' =>
      if is_object current then find_loop (prop_get current part) parts'
      else VNull
  end.

Definition _find (data : value) (id : string) : outcome value :=
  if _validateID id then Ok (find_loop data (split id))
  else Throw nonValidID.

(** The loop of [_findAndSet].  The code mutates [data] in place; here the
    node that the loop descends into is put back under its name, which is
    where the mutated node sits in the code. *)
Fixpoint set_loop (current : value) (parts : list string) (v : value)
  : outcome value :=
  match parts with
  | [] => Ok current
  | [part] => prop_set current part v
  | part :: parts' =>
      if is_object current then
        let child := prop_get current part in
        match set_loop (if is_object child then child else VObj []) parts' v with
        | Ok child' => Ok (prop_put current part child')
        | Throw e => Throw e
        end
      else Throw nativeError
  end.

Definition _findAndSet (data : value) (id : string) (v : value)
  : outcome value :=
  if _validateID id then set_loop data (split id) v
  else Throw nonValidID.

(** The loop of [delete]: [None] is [return false]. *)
Fixpoint delete_loop (current : value) (parts : list string) : option value :=
  match parts with
  | [] => Some current
  | [part] =>
      if is_object current then
        match prop_get current part with
        | VUndef => None
        | _ => Some (prop_delete current part)
        end
      else None
  | part :: parts' =>
      if is_object current then
        match delete_loop (prop_get current part) parts' with
        | Some child' => Some (prop_put current part child')
        | None => None
        end
      else None
  end.

End Paths.

(** ** Serialization

    [jsonify v] is [JSON.parse(JSON.stringify(v))]: a number that is not
    finite becomes [null], [-0] becomes [0], [undefined] becomes [null] in an
    array and is left out of an object, and the named properties of an array
    are left out. *)

Definition jsonify_num (f : float) : value :=
  if PrimFloat.is_finite f
  then VNum (if PrimFloat.is_zero f then PrimFloat.zero else f)
  else VNull.

Fixpoint jsonify (v : value) : value :=
  match v with
  | VUndef => VNull
  | VNum f => jsonify_num f
  | VArr elems _ => VArr (map jsonify elems) []
  | VObj props =>
      VObj ((fix members (ps : list (string * value)) :=
               match ps with
               | [] => []
               | (_, VUndef) :: ps' => members ps'
               | (k, v') :: ps' => (k, jsonify v') :: members ps'
               end) props)
  | _ => v
  end.

(** ** The file system *)

Inductive fstate : Type :=
| Missing                      (* no such file: ENOENT *)
| Faulty                       (* every access fails with another error *)
| Malformed (raw : string)     (* bytes that JSON.parse rejects *)
| Doc (v : value).             (* bytes that parse to [v] *)

Inductive io_event : Type :=
| ReadFile (path : string)
| WriteFile (path : string).

Record world : Type := World {
  files : string -> fstate;
  log : list io_event
}.

Definition upd (fs : string -> fstate) (path : string) (st : fstate)
  : string -> fstate :=
  fun p => if String.eqb p path then st else fs p.

(** A task body: it runs on the world and returns or throws. *)
Definition task (A : Type) : Type := world -> outcome A * world.

Definition ret {A : Type} (a : A) : task A := fun w => (Ok a, w).

Definition throw {A : Type} (e : error) : task A := fun w => (Throw e, w).

Definition bind {A B : Type} (m : task A) (k : A -> task B) : task B :=
  fun w =>
    match m w with
    | (Ok a, w') => k a w'
    | (Throw e, w') => (Throw e, w')
    end.

Definition lift {A : Type} (o : outcome A) : task A := fun w => (o, w).

Declare Scope task_scope.
Delimit Scope task_scope with task.
Notation "x <- m ;; k" := (bind m (fun x => k))
  (at level 61, m at next level, right associativity) : task_scope.
Notation "m ;;; k" := (bind m (fun _ => k))
  (at level 61, right associativity) : task_scope.

(** [JSON.parse(await fs.readFile(path, "utf-8"))] *)
Inductive read_result : Type :=
| ENOENT
| IOFault
| SyntaxError
| Parsed (v : value).

Definition read_parse (path : string) (w : world) : read_result * world :=
  let w' := World (files w) (log w ++ [ReadFile path]) in
  match files w path with
  | Missing => (ENOENT, w')
  | Faulty => (IOFault, w')
  | Malformed _ => (SyntaxError, w')
  | Doc v => (Parsed v, w')
  end.

(** [await fs.writeFile(path, JSON.stringify(data, null, spaces))];
    [JSON.stringify(undefined)] is no string, which [writeFile] rejects
    before it touches the file. *)
Definition write_json (path : string) (data : value) : task unit :=
  fun w =>
    match data with
    | VUndef => (Throw nativeError, w)
    | _ =>
        let l := log w ++ [WriteFile path] in
        match files w path with
        | Faulty => (Throw nativeError, World (files w) l)
        | _ => (Ok tt, World (upd (files w) path (Doc (jsonify data))) l)
        end
    end.

(** ** The storage manager *)

Section StorageManager.

Variable file : string.
Variable separator : ascii.

Local Open Scope task_scope.

Definition _write (data : value) : task unit := write_json file data.

Definition _read : task value :=
  fun w =>
    match read_parse file w with
    | (Parsed data, w') => (Ok data, w')
    | (ENOENT, w') => (_write (VObj []) ;;; ret (VObj [])) w'
    | (SyntaxError, w') => (Throw parseError, w')
    | (IOFault, w') => (Throw unableToRead, w')
    end.

Definition set (id : string) (v : value) : task value :=
  if String.eqb id "" then throw undefinedID
  else match v with
       | VUndef => throw undefinedValue
       | _ =>
           data <- _read ;;
           data' <- lift (_findAndSet separator data id v) ;;
           _write data' ;;;
           ret v
       end.

Definition get (id : string) : task value :=
  if String.eqb id "" then throw undefinedID
  else
    data <- _read ;;
    lift (_find separator data id).

Definition add (id : string) (v : value) : task value :=
  if String.eqb id "" then throw undefinedID
  else match v with
       | VUndef => throw undefinedValue
       | VNum delta =>
           data <- _read ;;
           currentVal <- lift (_find separator data id) ;;
           match currentVal with
           | VNull | VNum _ =>
               let newVal := VNum (or_zero currentVal + delta)%float in
               data' <- lift (_findAndSet separator data id newVal) ;;
               _write data' ;;;
               ret newVal
           | _ => throw dataNotANumber
           end
       | _ => throw mustBeANumber
       end.

(** [subtract] checks its operand before it calls [add]. *)
Definition subtract (id : string) (v : value) : task value :=
  match v with
  | VNum delta => add id (VNum (- delta)%float)
  | _ => throw mustBeANumber
  end.

Definition all : task value := _read.

Definition has (id : string) : task bool :=
  if String.eqb id "" then throw undefinedID
  else
    data <- _read ;;
    found <- lift (_find separator data id) ;;
    ret (match found with VNull => false | _ => true end).

Definition delete (id : string) : task bool :=
  if String.eqb id "" then throw undefinedID
  else
    data <- _read ;;
    match delete_loop data (split separator id) with
    | None => ret false
    | Some data' => _write data' ;;; ret true
    end.

(** [options?.confirm !== true] *)
Definition clear (confirm : bool) : task bool :=
  if confirm then _write (VObj []) ;;; ret true
  else throw clearConfirm.

Definition push (id : string) (v : value) : task value :=
  if String.eqb id "" then throw undefinedID
  else match v with
       | VUndef => throw undefinedValue
       | _ =>
           data <- _read ;;
           found <- lift (_find separator data id) ;;
           match found with
           | VNull | VUndef =>
               let arr := VArr [v] [] in
               data' <- lift (_findAndSet separator data id arr) ;;
               _write data' ;;;
               ret arr
           | VArr elems named =>
               let arr := VArr (elems ++ [v]) named in
               data' <- lift (_findAndSet separator data id arr) ;;
               _write data' ;;;
               ret arr
           | _ => throw mustBeArray
           end
       end.

(** [filePath.endsWith(".json")] *)
Fixpoint endsWith_json (p : string) : bool :=
  match p with
  | EmptyString => false
  | String c p' => String.eqb p ".json" || endsWith_json p'
  end.

Definition backup (filePath : string) : task bool :=
  if String.eqb filePath "" then throw invalidBackupPath
  else if negb (endsWith_json filePath) then throw backupNotJson
  else
    data <- _read ;;
    write_json filePath data ;;;
    ret true.

Definition loadBackup (filePath : string) : task bool :=
  if String.eqb filePath "" then throw invalidBackupPath
  else fun w =>
    match read_parse filePath w with
    | (Parsed backupData, w') => (_write backupData ;;; ret true) w'
    | (_, w') => (Throw backupUnreadable, w')
    end.

End StorageManager.

(** ** Names that the runtime resolves by itself

    The members of [Object.prototype] and [Array.prototype] (ECMAScript
    2023), the accessor [__proto__] and the [length] of an array. *)

Definition runtime_names : list string :=
  [ "__proto__"; "constructor"; "hasOwnProperty"; "isPrototypeOf";
    "propertyIsEnumerable"; "toLocaleString"; "toString"; "valueOf";
    "__defineGetter__"; "__defineSetter__"; "__lookupGetter__";
    "__lookupSetter__";
    "length"; "at"; "concat"; "copyWithin"; "entries"; "every"; "fill";
    "filter"; "find"; "findIndex"; "findLast"; "findLastIndex"; "flat";
    "flatMap"; "forEach"; "includes"; "indexOf"; "join"; "keys";
    "lastIndexOf"; "map"; "pop"; "push"; "reduce"; "reduceRight"; "reverse";
    "shift"; "slice"; "some"; "sort"; "splice"; "toReversed"; "toSorted";
    "toSpliced"; "unshift"; "values"; "with" ].

Definition plain_name (part : string) : bool :=
  negb (existsb (String.eqb part) runtime_names).

Definition plain_path (separator : ascii) (id : string) : bool :=
  forallb plain_name (split separator id).

(** ** The operation queue

    [_enqueue(task)] is [this.queue.catch(() => {}).then(task)]: every call
    adds two promises to the chain, the one that [catch] derives from the
    current tail and the one that [then] derives from it, which becomes the
    new tail.  An entry of the machine is one such pair.  The body of a
    task is a sequence of atomic sections, separated by the points where it
    awaits; each section acts on the resource that the tasks share. *)

Section Queue.

Variable State : Type.
Variable R : Type.

Inductive body : Type :=
| Return (r : outcome R)
| Await (effect : State -> State) (next : State -> body).

Inductive pstate : Type :=
| Pending
| Fulfilled
| Rejected.

Inductive phase : Type :=
| Waiting                    (* [task] has not been called *)
| Running (rest : body)      (* [task()] is in progress *)
| Settled (r : outcome R).   (* the promise of [then] is settled *)

Record entry : Type := Entry {
  caught : pstate;           (* [this.queue.catch(() => {})] *)
  code : body;               (* [task] *)
  chained : phase            (* [.then(task)], the handle of the caller *)
}.

Inductive event : Type :=
| Began (i : nat)
| Ran (i : nat)
| Ended (i : nat).

Record machine : Type := Machine {
  entries : list entry;
  shared : State;
  trace : list event
}.

Definition status (p : phase) : pstate :=
  match p with
  | Waiting | Running _ => Pending
  | Settled (Ok _) => Fulfilled
  | Settled (Throw _) => Rejected
  end.

(** The state of [this.queue] when the entries [es] have been enqueued:
    [Promise.resolve()] at first, then the handle of the last entry. *)
Definition tail_status (es : list entry) : pstate :=
  match rev es with
  | [] => Fulfilled
  | e :: _ => status (chained e)
  end.

(** [this.queue = Promise.resolve()] *)
Definition init (s : State) : machine := Machine [] s [].

(** [_enqueue(task)] *)
Definition _enqueue (b : body) (m : machine) : machine :=
  Machine (entries m ++ [Entry Pending b Waiting]) (shared m) (trace m).

(** The jobs of the event loop on one entry, whose source (the tail of the
    chain when the entry was enqueued) is in state [source].  A promise
    derived by [catch(() => {})] fulfils as soon as its source is settled,
    whichever way.  A promise derived by [then(task)] calls [task] when its
    source is fulfilled, and is rejected without calling it when its source
    is rejected.  A task that has been called runs its atomic sections one
    at a time, and settles its promise when it returns. *)
Inductive fire (source : pstate) (i : nat) (s : State) (e : entry)
  : entry -> State -> list event -> Prop :=
| fire_catch :
    caught e = Pending ->
    source <> Pending ->
    fire source i s e (Entry Fulfilled (code e) (chained e)) s []
| fire_call :
    caught e = Fulfilled ->
    chained e = Waiting ->
    fire source i s e (Entry (caught e) (code e) (Running (code e))) s
         [Began i]
| fire_skip :
    caught e = Rejected ->
    chained e = Waiting ->
    fire source i s e
         (Entry (caught e) (code e) (Settled (Throw nativeError))) s []
| fire_await : forall effect next,
    chained e = Running (Await effect next) ->
    fire source i s e (Entry (caught e) (code e) (Running (next s)))
         (effect s) [Ran i]
| fire_return : forall r,
    chained e = Running (Return r) ->
    fire source i s e (Entry (caught e) (code e) (Settled r)) s [Ended i].

Inductive job : machine -> machine -> Prop :=
| job_at : forall l1 e l2 s tr e' s' evs,
    fire (tail_status l1) (List.length l1) s e e' s' evs ->
    job (Machine (l1 ++ e :: l2) s tr) (Machine (l1 ++ e' :: l2) s' (tr ++ evs)).

(** A step of the system: a caller enqueues a task, or a job runs. *)
Inductive step : machine -> machine -> Prop :=
| step_enqueue : forall b m, step m (_enqueue b m)
| step_job : forall m m', job m m' -> step m m'.

Inductive reachable (s0 : State) : machine -> Prop :=
| reach_init : reachable s0 (init s0)
| reach_step : forall m m', reachable s0 m -> step m m' -> reachable s0 m'.

(** Running a body alone, from its first section to its return. *)
Fixpoint run_body (b : body) (s : State) : State * outcome R :=
  match b with
  | Return r => (s, r)
  | Await effect next => run_body (next s) (effect s)
  end.

(** Running bodies one after the other. *)
Fixpoint run_serial (bs : list body) (s : State)
  : State * list (outcome R) :=
  match bs with
  | [] => (s, [])
  | b :: bs' =>
      let (s1, r) := run_body b s in
      let (s2, rs) := run_serial bs' s1 in
      (s2, r :: rs)
  end.

(** The events of one task from its call on: all of them, or a prefix when
    the task is still running. *)
Inductive block (i : nat) : bool -> list event -> Prop :=
| block_began : block i false [Began i]
| block_ran : forall tr, block i false tr -> block i false (tr ++ [Ran i])
| block_ended : forall tr, block i false tr -> block i true (tr ++ [Ended i]).

(** A trace in which the tasks [i], [i+1], ... run one after the other:
    complete blocks in the order of submission, then at most one
    incomplete block. *)
Inductive serial_from : nat -> list event -> Prop :=
| serial_nil : forall i, serial_from i []
| serial_open : forall i tr, block i false tr -> serial_from i tr
| serial_next : forall i tr tr',
    block i true tr -> serial_from (S i) tr' ->
    serial_from i (tr ++ tr').

Definition running (e : entry) : bool :=
  match chained e with
  | Running _ => true
  | _ => false
  end.

Definition settled (e : entry) : bool :=
  match chained e with
  | Settled _ => true
  | _ => false
  end.

Definition result_of (e : entry) : option (outcome R) :=
  match chained e with
  | Settled r => Some r
  | _ => None
  end.

(** A run of the event loop: jobs, one after the other. *)
Inductive jobs : machine -> machine -> Prop :=
| jobs_refl : forall m, jobs m m
| jobs_step : forall m1 m2 m3, job m1 m2 -> jobs m2 m3 -> jobs m1 m3.

(** An entry that nothing has touched yet. *)
Definition idle (e : entry) : Prop :=
  caught e = Pending /\ chained e = Waiting.

(** The state of the tail when the entries [es] follow a promise in state
    [p]. *)
Definition last_status (p : pstate) (es : list entry) : pstate :=
  match rev es with
  | [] => p
  | e :: _ => status (chained e)
  end.

(** The shape of the chain from entry [i] on, when the entries before it
    have left the resource in state [s]: settled entries whose results and
    effects are those of their bodies run in turn, then at most one entry
    that is running or about to be called, then idle entries.  The last two
    arguments are the resource and the events of these entries. *)
Inductive chain : nat -> State -> list entry -> State -> list event -> Prop :=
| chain_nil : forall i s, chain i s [] s []
| chain_done : forall i s e es r s1 s2 tr1 tr2,
    caught e = Fulfilled ->
    chained e = Settled r ->
    run_body (code e) s = (s1, r) ->
    block i true tr1 ->
    chain (S i) s1 es s2 tr2 ->
    chain i s (e :: es) s2 (tr1 ++ tr2)
| chain_running : forall i s e es b sh tr,
    caught e = Fulfilled ->
    chained e = Running b ->
    run_body b sh = run_body (code e) s ->
    block i false tr ->
    Forall idle es ->
    chain i s (e :: es) sh tr
| chain_waiting : forall i s e es,
    caught e <> Rejected ->
    chained e = Waiting ->
    Forall idle es ->
    chain i s (e :: es) s [].

End Queue.

Arguments Return {State R} r.
Arguments Waiting {State R}.
Arguments Settled {State R} r.
Arguments init {State R} s.

(** A storage operation run as a task body of one atomic section. *)
Definition atomic {A : Type} (t : task A) : body world A :=
  Await (fun w => snd (t w)) (fun w => Return (fst (t w))).

(** The body of [set] with its two points of suspension: it awaits the
    read of the document, then the write. *)
Definition set_staged (file : string) (separator : ascii) (id : string)
  (v : value) : body world value :=
  if String.eqb id "" then Return (Throw undefinedID)
  else match v with
       | VUndef => Return (Throw undefinedValue)
       | _ =>
           Await (fun w => snd (_read file w))
             (fun w =>
                match fst (_read file w) with
                | Throw e => Return (Throw e)
                | Ok data =>
                    match _findAndSet separator data id v with
                    | Throw e => Return (Throw e)
                    | Ok data' =>
                        Await (fun w1 => snd (_write file data' w1))
                          (fun w1 =>
                             match fst (_write file data' w1) with
                             | Throw e => Return (Throw e)
                             | Ok _ => Return (Ok v)
                             end)
                    end
                end)
       end.

(** A value that a file can hold: what [JSON.parse] can return. *)
Fixpoint json (v : value) : bool :=
  match v with
  | VUndef => false
  | VNum f => PrimFloat.is_finite f
  | VArr elems named =>
      forallb json elems && match named with [] => true | _ => false end
  | VObj props =>
      (fix members (ps : list (string * value)) : bool :=
         match ps with
         | [] => true
         | (_, v') :: ps' => json v' && members ps'
         end) props
  | _ => true
  end.

(** ** Induction on values *)

Section ValueInduction.

Variable P : value -> Prop.
Hypothesis HUndef : P VUndef.
Hypothesis HNull : P VNull.
Hypothesis HBool : forall b, P (VBool b).
Hypothesis HNum : forall f, P (VNum f).
Hypothesis HStr : forall s, P (VStr s).
Hypothesis HArr : forall elems named,
  Forall P elems -> Forall (fun kv => P (snd kv)) named ->
  P (VArr elems named).
Hypothesis HObj : forall props,
  Forall (fun kv => P (snd kv)) props -> P (VObj props).

Fixpoint value_rect' (v : value) : P v :=
  match v with
  | VUndef => HUndef
  | VNull => HNull
  | VBool b => HBool b
  | VNum f => HNum f
  | VStr s => HStr s
  | VArr elems named =>
      HArr
        ((fix all (l : list value) : Forall P l :=
            match l with
            | [] => Forall_nil P
            | x :: l' => Forall_cons x (value_rect' x) (all l')
            end) elems)
        ((fix all (l : list (string * value))
            : Forall (fun kv => P (snd kv)) l :=
            match l with
            | [] => Forall_nil _
            | kv :: l' => Forall_cons kv (value_rect' (snd kv)) (all l')
            end) named)
  | VObj props =>
      HObj
        ((fix all (l : list (string * value))
            : Forall (fun kv => P (snd kv)) l :=
            match l with
            | [] => Forall_nil _
            | kv :: l' => Forall_cons kv (value_rect' (snd kv)) (all l')
            end) props)
  end.

End ValueInduction.

(** The node that a path leads to in a document, before [_find] turns
    [undefined] into [null]: [VUndef] when the path leaves the data. *)
Fixpoint node_at (current : value) (parts : list string) : value :=
  match parts with
  | [] => current
  | part :: parts' =>
      if is_object current then node_at (prop_get current part) parts'
      else VUndef
  end.

(** The members of an object as they are serialized. *)
Definition jsonify_props (props : list (string * value))
  : list (string * value) :=
  (fix members (ps : list (string * value)) :=
     match ps with
     | [] => []
     | (_, VUndef) :: ps' => members ps'
     | (k, v') :: ps' => (k, jsonify v') :: members ps'
     end) props.

(** The node that [_findAndSet] descends into: the existing one when it is
    an object, a fresh map otherwise. *)
Definition descend (child : value) : value :=
  if is_object child then child else VObj [].

(** No array lies on the path: none of the nodes that the walk passes,
    the root included, is an array. *)
Fixpoint no_array_on (current : value) (parts : list string) : bool :=
  match parts with
  | [] => true
  | part :: parts' =>
      negb (is_array current) && no_array_on (prop_get current part) parts'
  end.

(** A task that fails, then one that succeeds: the second is called once
    the first has settled, and each handle gets the result of its own
    task. *)
Definition failing : body nat nat :=
  Await (fun s => s + 1) (fun _ => Return (Throw nativeError)).

Definition doubling : body nat nat :=
  Await (fun s => 2 * s) (fun s => Return (Ok s)).

Definition after_failure : machine nat nat :=
  Machine [Entry Fulfilled failing (Settled (Throw nativeError));
           Entry Fulfilled doubling (Settled (Ok 1))]
          2
          [Began 0; Ran 0; Ended 0; Began 1; Ran 1; Ended 1].

Definition value_undef_dec (v : value) : {v = VUndef} + {v <> VUndef}.
Proof.
  destruct v; (left; reflexivity) || (right; discriminate).
Defined.

(** [parts.join(separator)] *)
Fixpoint join (separator : ascii) (parts : list string) : string :=
  match parts with
  | [] => EmptyString
  | [part] => part
  | part :: parts' =>
      String.append part (String separator (join separator parts'))
  end.

(** The separator occurs in the string. *)
Fixpoint has_sep (separator : ascii) (s : string) : bool :=
  match s with
  | EmptyString => false
  | String c s' => Ascii.eqb c separator || has_sep separator s'
  end.

(** ** The constructors

    The task that the constructor of [StorageManager] enqueues:
    [fs.access], and [_write({})] when the file is absent.  Its errors are
    the access error, or what [_write] throws. *)

Inductive init_error : Type :=
| unableToAccess                (* "Unable to access database file: ..." *)
| initWrite (e : error).

Definition init_task (file : string) (w : world)
  : option init_error * world :=
  match files w file with
  | Missing =>
      match _write file (VObj []) w with
      | (Ok _, w') => (None, w')
      | (Throw e, w') => (Some (initWrite e), w')
      end
  | Faulty => (Some unableToAccess, w)
  | _ => (None, w)
  end.

(** The settings of the facade [NopeDB]. *)
Record settings : Type := Settings {
  s_path : option string;
  s_spaces : option float;
  s_separator : option string
}.

Record resolved : Type := Resolved {
  r_path : string;
  r_spaces : float;
  r_separator : string;
  r_file : string
}.

Inductive config_error : Type :=
| pathNotJson          (* "The database 'path' must end with '.json'." *)
| spacesNegative       (* "The 'spaces' setting must be a positive number." *)
| separatorInvalid     (* "Invalid 'separator'. Must be a single ..." *)
| creationFailed.      (* what [writeFileSync] throws *)

(** The characters of the class in [PUNCTUATION_REGEX]. *)
Definition punctuation : list ascii :=
  ["!"; ascii_of_nat 34; "#"; "%"; "&"; "'"; "*"; ","; "."; "/"; "?"; "@"; "^"; "_";
   "|"; "~"; "-"]%char.

(** [PUNCTUATION_REGEX.test(separator)] *)
Definition punctuation_test (separator : string) : bool :=
  match separator with
  | String c EmptyString => existsb (Ascii.eqb c) punctuation
  | _ => false
  end.

Section Facade.

(** [pathUtils.join(process.cwd(), 'db.json')] and [pathUtils.resolve]
    belong to the environment. *)
Variable defaultPath : string.
Variable resolve : string -> string.

(** The constructor of [NopeDB]: the settings are checked, then the file
    is created with the text of an empty map when it does not exist. *)
Definition NopeDB_new (s : settings) (w : world)
  : (config_error + resolved) * world :=
  let path := match s_path s with Some p => p | None => defaultPath end in
  let spaces := match s_spaces s with Some n => n | None => 2%float end in
  let separator :=
    match s_separator s with Some c => c | None => "." end in
  if negb (endsWith_json path) then (inl pathNotJson, w)
  else if PrimFloat.ltb spaces 0 then (inl spacesNegative, w)
  else if negb (punctuation_test separator) then (inl separatorInvalid, w)
  else
    let r := Resolved path spaces separator (resolve path) in
    match files w (r_file r) with
    | Missing =>
        (inr r,
         World (upd (files w) (r_file r) (Doc (VObj [])))
               (log w ++ [WriteFile (r_file r)]))
    | Faulty =>
        (inl creationFailed, World (files w) (log w ++ [WriteFile (r_file r)]))
    | _ => (inr r, w)
    end.

End Facade.

(** A letter or a digit. *)
Definition is_alnum (c : ascii) : bool :=
  let n := N_of_ascii c in
  ((48 <=? n) && (n <=? 57) || (65 <=? n) && (n <=? 90)
   || (97 <=? n) && (n <=? 122))%N.

Fixpoint is_word (s : string) : bool :=
  match s with
  | EmptyString => true
  | String c s' => is_alnum c && is_word s'
  end.

(** A body runs as a task does. *)
Definition performs {A : Type} (b : body world A) (t : task A) : Prop :=
  forall w, run_body b w = (snd (t w), fst (t w)).

(** Tasks run in turn. *)
Fixpoint run_tasks {A : Type} (ts : list (task A)) (w : world)
  : world * list (outcome A) :=
  match ts with
  | [] => (w, [])
  | t :: ts' =>
      let (o, w1) := t w in
      let (w2, os) := run_tasks ts' w1 in
      (w2, o :: os)
  end.

(** ** An event loop

    A scheduler that runs the first job that can run, for computing with
    the queue: one schedule among those that [job] allows. *)

Section EventLoop.

Variable State : Type.
Variable R : Type.

Definition fire_entry (source : pstate) (i : nat) (s : State)
  (e : entry State R) : option (entry State R * State * list event) :=
  match chained e with
  | Settled _ => None
  | Running (Return r) =>
      Some (Entry (caught e) (code e) (Settled r), s, [Ended i])
  | Running (Await effect next) =>
      Some (Entry (caught e) (code e) (Running (next s)), effect s, [Ran i])
  | Waiting =>
      match caught e with
      | Pending =>
          match source with
          | Pending => None
          | _ => Some (Entry Fulfilled (code e) (chained e), s, [])
          end
      | Fulfilled =>
          Some (Entry (caught e) (code e) (Running (code e)), s, [Began i])
      | Rejected =>
          Some (Entry (caught e) (code e) (Settled (Throw nativeError)), s, [])
      end
  end.

Fixpoint tick_from (before rest : list (entry State R)) (s : State)
  (tr : list event) : option (machine State R) :=
  match rest with
  | [] => None
  | e :: rest' =>
      match fire_entry (tail_status before) (List.length before) s e with
      | Some (e', s', evs) =>
          Some (Machine (before ++ e' :: rest') s' (tr ++ evs))
      | None => tick_from (before ++ [e]) rest' s tr
      end
  end.

Definition tick (m : machine State R) : machine State R :=
  match tick_from [] (entries m) (shared m) (trace m) with
  | Some m' => m'
  | None => m
  end.

Fixpoint run_loop (n : nat) (m : machine State R) : machine State R :=
  match n with
  | O => m
  | S n' => run_loop n' (tick m)
  end.

End EventLoop.

(** The file of the store holds nothing, or data that JSON represents as
    it is. *)
Definition well_kept (file : string) (w : world) : Prop :=
  forall d, files w file = Doc d -> json d = true /\ jsonify d = d.

(** A task keeps the file of the store so. *)
Definition keeps {A : Type} (file : string) (t : task A) : Prop :=
  forall w, well_kept file w -> well_kept file (snd (t w)).

(** The states of the queue after the tasks [bs] have been passed to
    [_enqueue], in this order, with jobs of the event loop in between. *)
Inductive submitted {State R : Type} (s0 : State)
  : list (body State R) -> machine State R -> Prop :=
| submitted_init : submitted s0 [] (init s0)
| submitted_enqueue : forall bs m b,
    submitted s0 bs m -> submitted s0 (bs ++ [b]) (_enqueue b m)
| submitted_job : forall bs m m',
    submitted s0 bs m -> job m m' -> submitted s0 bs m'.

(** * Properties *)

Unset Implicit Arguments.

(** What is written to a file is a value that a file can hold. *)
Lemma jsonify_json : forall v, json (jsonify v) = true.
Proof.
  induction v using value_rect'; simpl; try reflexivity.
  - unfold jsonify_num. destruct (PrimFloat.is_finite f) eqn:Hf; simpl; auto.
    destruct (PrimFloat.is_zero f); auto.
  - rewrite andb_true_r. induction H; simpl; auto.
    rewrite H, IHForall. reflexivity.
  - induction H as [|[k v] ps Hv Hps IH]; simpl; auto.
    simpl in Hv. destruct v; simpl in *; auto; rewrite ?Hv, ?IH; auto.
Qed.

Lemma valid_nonempty : forall separator id,
  _validateID separator id = true -> String.eqb id "" = false.
Proof.
  intros separator id H. unfold _validateID in H.
  destruct (String.eqb id ""); [discriminate | reflexivity].
Qed.

Lemma find_nonempty : forall separator data id r,
  _find separator data id = Ok r -> String.eqb id "" = false.
Proof.
  intros separator data id r H. unfold _find in H.
  destruct (_validateID separator id) eqn:E; [| discriminate].
  eapply valid_nonempty; eauto.
Qed.

(** ** The read primitive *)

(** C9. When the file is absent, [_read] creates it with an empty map and
    returns an empty map.  When the file holds bytes that do not parse,
    [_read] throws the parse error and leaves the file as it is, and so do
    the reading operations [all], [get] and [has]: none returns a document
    in place of the malformed content. *)
Theorem read_missing_or_malformed :
  forall (file : string) (separator : ascii) (w : world),
    (files w file = Missing ->
     _read file w =
       (Ok (VObj []),
        World (upd (files w) file (Doc (VObj [])))
              ((log w ++ [ReadFile file]) ++ [WriteFile file])))
    /\ (forall raw, files w file = Malformed raw ->
        let w' := World (files w) (log w ++ [ReadFile file]) in
        _read file w = (Throw parseError, w')
        /\ all file w = (Throw parseError, w')
        /\ (forall id, id <> "" ->
            get file separator id w = (Throw parseError, w')
            /\ has file separator id w = (Throw parseError, w'))).
Proof.
  intros file separator w. split.
  - intros H. unfold _read, read_parse. rewrite H. simpl.
    unfold bind, _write, write_json. simpl. rewrite H. reflexivity.
  - intros raw H.
    assert (R : _read file w =
                (Throw parseError, World (files w) (log w ++ [ReadFile file]))).
    { unfold _read, read_parse. rewrite H. reflexivity. }
    simpl. split; [exact R |]. split; [exact R |].
    intros id Hid. apply String.eqb_neq in Hid.
    unfold get, has. rewrite Hid. unfold bind. rewrite R. split; reflexivity.
Qed.

Lemma read_missing_or_malformed_witness :
  let w1 := World (fun _ => Missing) [] in
  let w2 := World (fun _ => Malformed "{oops") [] in
  _read "db.json" w1 =
    (Ok (VObj []),
     World (upd (files w1) "db.json" (Doc (VObj [])))
           [ReadFile "db.json"; WriteFile "db.json"])
  /\ get "db.json" "."%char "a" w2 =
       (Throw parseError, World (files w2) [ReadFile "db.json"]).
Proof.
  split.
  - apply (proj1 (read_missing_or_malformed "db.json" "."%char
                    (World (fun _ => Missing) []))).
    reflexivity.
  - apply (proj2 (read_missing_or_malformed "db.json" "."%char
                    (World (fun _ => Malformed "{oops") [])) "{oops").
    + reflexivity.
    + discriminate.
Defined.

(** ** Operations that do not read the document *)

(** C10. [clear] with its confirmation and [loadBackup] of a file that holds
    a document never read the primary file: whatever it holds, malformed
    bytes included, they return [true] after one write, which leaves a
    well-formed document in the primary file. *)
Theorem clear_and_loadBackup_skip_read :
  forall (file filePath : string) (w : world) (backupData : value),
    files w file <> Faulty ->
    filePath <> "" ->
    filePath <> file ->
    files w filePath = Doc backupData ->
    json backupData = true ->
    clear file true w =
      (Ok true,
       World (upd (files w) file (Doc (VObj []))) (log w ++ [WriteFile file]))
    /\ loadBackup file filePath w =
         (Ok true,
          World (upd (files w) file (Doc (jsonify backupData)))
                ((log w ++ [ReadFile filePath]) ++ [WriteFile file]))
    /\ ~ In (ReadFile file) [WriteFile file]
    /\ ~ In (ReadFile file) [ReadFile filePath; WriteFile file]
    /\ json (jsonify backupData) = true.
Proof.
  intros file filePath w backupData Hf Hne Hdiff Hb Hj.
  split; [| split; [| split; [| split]]].
  - unfold clear, bind, _write, write_json. simpl.
    destruct (files w file); try reflexivity. contradiction.
  - unfold loadBackup. apply String.eqb_neq in Hne. rewrite Hne.
    unfold read_parse. rewrite Hb. unfold bind, _write, write_json. simpl.
    destruct backupData; try discriminate;
      destruct (files w file); try reflexivity; contradiction.
  - simpl. intros [H | []]. discriminate.
  - simpl. intros [H | [H | []]]; [| discriminate].
    injection H as H. auto.
  - apply jsonify_json.
Qed.

Lemma clear_and_loadBackup_skip_read_witness :
  let w := World (upd (upd (fun _ => Missing) "db.json" (Malformed "{oops"))
                      "backup.json" (Doc (VObj [("a", VNum 1)]))) [] in
  fst (clear "db.json" true w) = Ok true
  /\ fst (loadBackup "db.json" "backup.json" w) = Ok true
  /\ files (snd (loadBackup "db.json" "backup.json" w)) "db.json"
     = Doc (VObj [("a", VNum 1)]).
Proof.
  intros w.
  assert (H := @clear_and_loadBackup_skip_read "db.json" "backup.json" w
                 (VObj [("a", VNum 1)])).
  destruct H as [H1 [H2 _]]; try reflexivity; try discriminate.
  rewrite H1, H2. repeat split.
Defined.

(** ** Resolution *)

Lemma find_loop_node_at : forall parts current,
  find_loop current parts = nullish (node_at current parts).
Proof.
  induction parts as [|part parts IH]; intros current; simpl.
  - reflexivity.
  - destruct (is_object current); [apply IH | reflexivity].
Qed.

Lemma node_at_app : forall pre post current,
  node_at current (pre ++ post) =
  if is_object (node_at current pre) then node_at (node_at current pre) post
  else match post with
       | [] => node_at current pre
       | _ => VUndef
       end.
Proof.
  induction pre as [|part pre IH]; intros post current; simpl.
  - destruct post; simpl; destruct (is_object current); reflexivity.
  - destruct (is_object current) eqn:E.
    + apply IH.
    + destruct post; reflexivity.
Qed.

(** A stored [null] and an absent key read alike. *)
Lemma stored_null_reads_as_absent :
  let stored := VObj [("a", VNull)] in
  let absent := VObj [] in
  let on (data : value) := World (upd (fun _ => Missing) "db.json" (Doc data)) [] in
  node_at stored ["a"] = VNull
  /\ node_at absent ["a"] = VUndef
  /\ _find "."%char stored "a" = _find "."%char absent "a"
  /\ fst (has "db.json" "."%char "a" (on stored)) = Ok false
  /\ fst (has "db.json" "."%char "a" (on absent)) = Ok false
  /\ fst (get "db.json" "."%char "a" (on stored))
     = fst (get "db.json" "."%char "a" (on absent)).
Proof.
  repeat split.
Qed.

(** C5, as the code has it.  When the path leads to a stored [null],
    resolution returns [null], the value that [_find] returns for a path
    that leads nowhere, and [has] returns [false]: a stored [null] is not
    told from an absent key. *)
Theorem stored_null_collapses :
  forall (file : string) (separator : ascii) (id : string) (w : world)
         (data : value),
    _validateID separator id = true ->
    files w file = Doc data ->
    node_at data (split separator id) = VNull ->
    _find separator data id = Ok VNull
    /\ get file separator id w =
         (Ok VNull, World (files w) (log w ++ [ReadFile file]))
    /\ has file separator id w =
         (Ok false, World (files w) (log w ++ [ReadFile file])).
Proof.
  intros file separator id w data Hv Hdoc Hnode.
  assert (F : _find separator data id = Ok VNull).
  { unfold _find. rewrite Hv, find_loop_node_at, Hnode. reflexivity. }
  split; [exact F |].
  unfold get, has. rewrite (valid_nonempty _ _ Hv).
  unfold bind, _read, read_parse, lift. rewrite Hdoc, F. split; reflexivity.
Qed.

Lemma stored_null_collapses_witness :
  let w := World (upd (fun _ => Missing) "db.json"
                      (Doc (VObj [("a", VNull)]))) [] in
  has "db.json" "."%char "a" w = (Ok false, World (files w) [ReadFile "db.json"]).
Proof.
  intros w.
  apply (@stored_null_collapses "db.json" "."%char "a" w (VObj [("a", VNull)]));
    reflexivity.
Defined.

(** An array on the path is traversed: its elements are found under their
    indices. *)
Lemma array_is_traversed :
  let data := VObj [("a", VArr [VNum 10; VNum 20] [])] in
  is_array (node_at data ["a"]) = true
  /\ _find "."%char data "a.0" = Ok (VNum 10)
  /\ _find "."%char data "a.1" = Ok (VNum 20)
  /\ _find "."%char data "a.0" <> Ok VNull.
Proof.
  repeat split. discriminate.
Qed.

(** C4, as the code has it.  Resolution of a valid path of plain names
    never throws.  It returns [null] when the walk meets a node that is a
    scalar, [null] or absent while segments remain, and when the path leads
    to nothing.  An array is not such a node: the walk goes on into the
    element that the segment indexes. *)
Theorem resolution_not_found :
  forall (separator : ascii) (id : string) (data : value),
    _validateID separator id = true ->
    plain_path separator id = true ->
    (exists r, _find separator data id = Ok r)
    /\ (forall pre part post,
          split separator id = pre ++ part :: post ->
          is_object (node_at data pre) = false ->
          _find separator data id = Ok VNull)
    /\ (node_at data (split separator id) = VUndef ->
        _find separator data id = Ok VNull)
    /\ (forall elems named part i rest,
          parse_index part = Some i ->
          find_loop (VArr elems named) (part :: rest) =
          find_loop (nth i elems VUndef) rest).
Proof.
  intros separator id data Hv _. unfold _find. rewrite Hv.
  split; [eauto |]. split; [| split].
  - intros pre part post Hs Hobj.
    rewrite find_loop_node_at, Hs, node_at_app, Hobj. reflexivity.
  - intros Hn. rewrite find_loop_node_at, Hn. reflexivity.
  - intros elems named part i rest Hi. simpl. rewrite Hi. reflexivity.
Qed.

Lemma resolution_not_found_witness :
  _find "."%char (VObj [("a", VNum 1)]) "a.b.c" = Ok VNull.
Proof.
  apply (proj1 (proj2 (@resolution_not_found "."%char "a.b.c"
                         (VObj [("a", VNum 1)]) eq_refl eq_refl))
           ["a"] "b" ["c"]); reflexivity.
Defined.

(** ** Assignment through a path *)

Lemma assoc_set_same : forall k v m, assoc k (assoc_set k v m) = Some v.
Proof.
  induction m as [|[k' v'] m IH]; simpl.
  - rewrite String.eqb_refl. reflexivity.
  - destruct (String.eqb k k') eqn:E; simpl; rewrite E; auto.
Qed.

Lemma list_set_same : forall i v es, nth i (list_set i v es) VUndef = v.
Proof.
  induction i as [|i IH]; intros v es; destruct es; simpl; auto.
Qed.

Lemma prop_put_object : forall current part v,
  is_object (prop_put current part v) = is_object current.
Proof.
  intros [] part v; simpl; try reflexivity.
  destruct (parse_index part); reflexivity.
Qed.

Lemma prop_get_put : forall current part v,
  is_object current = true ->
  prop_get (prop_put current part v) part = v.
Proof.
  intros [] part v H; simpl in *; try discriminate.
  - destruct (parse_index part) eqn:E; simpl; rewrite E.
    + apply list_set_same.
    + rewrite assoc_set_same. reflexivity.
  - rewrite assoc_set_same. reflexivity.
Qed.

Lemma descend_object : forall child, is_object (descend child) = true.
Proof.
  intros child. unfold descend. destruct (is_object child) eqn:E; auto.
Qed.

Lemma node_at_scalar : forall parts current,
  is_object current = false -> parts <> [] -> node_at current parts = VUndef.
Proof.
  intros [|part parts] current H Hp; [contradiction |].
  simpl. rewrite H. reflexivity.
Qed.

Lemma descend_node_at : forall pre child,
  descend (node_at (descend child) pre) = descend (node_at child pre).
Proof.
  intros pre child. unfold descend at 2.
  destruct (is_object child) eqn:E; [reflexivity |].
  destruct pre as [|part pre].
  - simpl. unfold descend. rewrite E. reflexivity.
  - rewrite (node_at_scalar (part :: pre) child) by (auto; discriminate).
    simpl. destruct pre; reflexivity.
Qed.

Lemma set_loop_cons : forall current part parts v,
  parts <> [] ->
  is_object current = true ->
  set_loop current (part :: parts) v =
  match set_loop (descend (prop_get current part)) parts v with
  | Ok child' => Ok (prop_put current part child')
  | Throw e => Throw e
  end.
Proof.
  intros current part [|p parts] v Hp Hobj; [contradiction |].
  simpl. rewrite Hobj. reflexivity.
Qed.

Lemma set_loop_shape : forall parts current v,
  parts <> [] ->
  is_object current = true ->
  exists data',
    set_loop current parts v = Ok data'
    /\ is_object data' = true
    /\ node_at data' parts = v
    /\ forall pre post, parts = pre ++ post -> post <> [] ->
         is_object (node_at data' pre) = true
         /\ set_loop (descend (node_at current pre)) post v
            = Ok (node_at data' pre).
Proof.
  induction parts as [|part parts IH]; intros current v Hp Hobj;
    [contradiction |].
  destruct parts as [|p parts].
  - exists (prop_put current part v). simpl. unfold prop_set. rewrite Hobj.
    split; [reflexivity |]. split; [rewrite prop_put_object; exact Hobj |].
    split.
    + rewrite prop_put_object, Hobj. apply prop_get_put; exact Hobj.
    + intros pre post Hs Hpost. destruct pre as [|q pre].
      * simpl in Hs. subst post. simpl. rewrite prop_put_object.
        unfold descend, prop_set; rewrite ?Hobj; simpl; rewrite ?Hobj; auto.
      * injection Hs as _ Hs. destruct pre; [| discriminate].
        simpl in Hs. subst post. contradiction.
  - destruct (IH (descend (prop_get current part)) v) as [child' [Hc [Ho [Hn Hf]]]];
      [discriminate | apply descend_object |].
    exists (prop_put current part child').
    rewrite set_loop_cons by (auto; discriminate). rewrite Hc.
    split; [reflexivity |]. split; [rewrite prop_put_object; exact Hobj |].
    split.
    + change (node_at (prop_put current part child') (part :: p :: parts))
        with (if is_object (prop_put current part child')
              then node_at (prop_get (prop_put current part child') part)
                           (p :: parts)
              else VUndef).
      rewrite prop_put_object, Hobj, prop_get_put by exact Hobj. exact Hn.
    + intros pre post Hs Hpost. destruct pre as [|q pre].
      * simpl in Hs. subst post. simpl node_at. rewrite prop_put_object.
        split; [exact Hobj |]. unfold descend at 1. rewrite Hobj.
        rewrite set_loop_cons by (auto; discriminate). rewrite Hc. reflexivity.
      * injection Hs as Hq Hs. subst q.
        simpl node_at. rewrite prop_put_object, Hobj.
        rewrite prop_get_put by exact Hobj.
        destruct (Hf pre post Hs Hpost) as [H1 H2].
        split; [exact H1 |]. rewrite <- H2. f_equal.
        symmetry. apply descend_node_at.
Qed.

Lemma split_nonempty : forall separator id, split separator id <> [].
Proof.
  intros separator [|c id]; simpl; [discriminate |].
  destruct (Ascii.eqb c separator); [discriminate |].
  destruct (split separator id); discriminate.
Qed.

(** An array on the path is kept, and the value lands in it. *)
Lemma array_is_not_replaced :
  let data := VObj [("a", VArr [VNum 1] [])] in
  _findAndSet "."%char data "a.0" (VNum 2) = Ok (VObj [("a", VArr [VNum 2] [])])
  /\ _findAndSet "."%char data "a.0" (VNum 2)
     <> Ok (VObj [("a", VObj [("0", VNum 2)])])
  /\ _findAndSet "."%char data "a.b.c" (VNum 2)
     = Ok (VObj [("a", VArr [VNum 1] [("b", VObj [("c", VNum 2)])])]).
Proof.
  repeat split. discriminate.
Qed.

(** Two names that index an array index different elements: an index has
    one numeral. *)
Lemma digit_of_bound : forall c d,
  digit_of c = Some d -> (d < 10)%N /\ c = ascii_of_N (d + 48).
Proof.
  intros c d. unfold digit_of.
  destruct (48 <=? N_of_ascii c)%N eqn:E1; [| discriminate].
  destruct (N_of_ascii c <=? 57)%N eqn:E2; [| discriminate].
  simpl. intros H. injection H as <-.
  apply N.leb_le in E1. apply N.leb_le in E2.
  split; [lia |].
  replace (N_of_ascii c - 48 + 48)%N with (N_of_ascii c) by lia.
  symmetry. apply ascii_N_embedding.
Qed.

Lemma digits_value_bounds : forall s acc r,
  digits_value s acc = Some r ->
  (acc * 10 ^ N.of_nat (String.length s) <= r
   /\ r < (acc + 1) * 10 ^ N.of_nat (String.length s))%N.
Proof.
  induction s as [|c s IH]; intros acc r H.
  - simpl in H. injection H as <-. simpl. lia.
  - simpl in H. destruct (digit_of c) as [d |] eqn:Ed; [| discriminate].
    destruct (digit_of_bound c d Ed) as [Hd _].
    destruct (IH _ _ H) as [H1 H2].
    change (String.length (String c s)) with (S (String.length s)).
    rewrite Nat2N.inj_succ, N.pow_succ_r'.
    set (P := (10 ^ N.of_nat (String.length s))%N) in *.
    split; nia.
Qed.

Lemma digits_value_inj : forall s t a b r,
  String.length s = String.length t ->
  digits_value s a = Some r ->
  digits_value t b = Some r ->
  a = b /\ s = t.
Proof.
  induction s as [|c s IH]; intros [|c' t] a b r Hl Hs Ht;
    try discriminate.
  - simpl in *. split; congruence.
  - simpl in Hs, Ht.
    destruct (digit_of c) as [d |] eqn:Ed; [| discriminate].
    destruct (digit_of c') as [d' |] eqn:Ed'; [| discriminate].
    destruct (digit_of_bound c d Ed) as [Hd Hc].
    destruct (digit_of_bound c' d' Ed') as [Hd' Hc'].
    injection Hl as Hl.
    destruct (IH t _ _ r Hl Hs Ht) as [Hacc ->].
    assert (d = d') by lia. assert (a = b) by lia.
    subst. split; reflexivity.
Qed.

Lemma parse_index_inj : forall s t i,
  parse_index s = Some i -> parse_index t = Some i -> s = t.
Proof.
  intros [|c s] [|c' t] i Hs Ht; try discriminate.
  unfold parse_index in Hs, Ht.
  destruct (Ascii.eqb c "0" && negb (String.eqb s ""))%bool eqn:Z;
    [discriminate |].
  destruct (Ascii.eqb c' "0" && negb (String.eqb t ""))%bool eqn:Z';
    [discriminate |].
  destruct (digits_value (String c s) 0) as [r |] eqn:Er; [| discriminate].
  destruct (digits_value (String c' t) 0) as [r' |] eqn:Er'; [| discriminate].
  destruct (r <? 4294967295)%N; [| discriminate].
  destruct (r' <? 4294967295)%N; [| discriminate].
  injection Hs as Hs. injection Ht as Ht.
  assert (r' = r) by (apply N2Nat.inj; congruence). subst r'.
  simpl in Er, Er'.
  destruct (digit_of c) as [d |] eqn:Ed; [| discriminate].
  destruct (digit_of c') as [d' |] eqn:Ed'; [| discriminate].
  destruct (digit_of_bound c d Ed) as [Hd Hc].
  destruct (digit_of_bound c' d' Ed') as [Hd' Hc'].
  destruct (digits_value_bounds _ _ _ Er) as [L1 U1].
  destruct (digits_value_bounds _ _ _ Er') as [L2 U2].
  set (n := String.length s) in *. set (n' := String.length t) in *.
  assert (P : forall k, (0 < 10 ^ N.of_nat k)%N).
  { intros k. apply N.neq_0_lt_0, N.pow_nonzero. discriminate. }
  assert (Hzero : forall (x : ascii) (u : string) (e : N),
            (Ascii.eqb x "0" && negb (String.eqb u ""))%bool = false ->
            x = ascii_of_N (e + 48) -> e = 0%N -> u = ""%string).
  { intros x u e HZ Hx He. subst e x. simpl in HZ.
    destruct u; [reflexivity | discriminate]. }
  destruct (N.eq_dec d 0) as [D | D].
  - pose proof (Hzero c s d Z Hc D) as Hs0. subst s d.
    simpl in Er. injection Er as <-.
    pose proof (P n'). assert (d' = 0%N) by nia.
    pose proof (Hzero c' t d' Z' Hc' H0) as Ht0. subst t d'.
    subst c c'. reflexivity.
  - destruct (N.eq_dec d' 0) as [D' | D'].
    + pose proof (Hzero c' t d' Z' Hc' D') as Ht0. subst t d'.
      simpl in Er'. injection Er' as <-.
      pose proof (P n). nia.
    + assert (Hlen : n = n').
      { destruct (Nat.lt_trichotomy n n') as [Hlt | [Heq | Hgt]];
          [| exact Heq |]; exfalso.
        - assert ((10 ^ N.of_nat (S n) <= 10 ^ N.of_nat n')%N)
            by (apply N.pow_le_mono_r; lia).
          rewrite Nat2N.inj_succ, N.pow_succ_r' in H.
          pose proof (P n). pose proof (P n'). nia.
        - assert ((10 ^ N.of_nat (S n') <= 10 ^ N.of_nat n)%N)
            by (apply N.pow_le_mono_r; lia).
          rewrite Nat2N.inj_succ, N.pow_succ_r' in H.
          pose proof (P n). pose proof (P n'). nia. }
      destruct (digits_value_inj s t _ _ r Hlen Er Er') as [Hdd ->].
      assert (d = d') by lia. subst. reflexivity.
Qed.

Lemma assoc_set_other : forall k part v m,
  k <> part -> assoc k (assoc_set part v m) = assoc k m.
Proof.
  intros k part v m Hk. apply String.eqb_neq in Hk.
  induction m as [|[k' v'] m IH]; simpl.
  - rewrite Hk. reflexivity.
  - destruct (String.eqb part k') eqn:E; simpl.
    + apply String.eqb_eq in E. subst k'. rewrite Hk. reflexivity.
    + rewrite IH. reflexivity.
Qed.

Lemma list_set_other : forall i j v es,
  i <> j -> nth j (list_set i v es) VUndef = nth j es VUndef.
Proof.
  induction i as [|i IH]; intros j v es Hij; destruct j as [|j];
    try contradiction; destruct es as [|e es]; simpl; try reflexivity.
  - destruct j; reflexivity.
  - rewrite IH by auto. destruct j; reflexivity.
  - apply IH. auto.
Qed.

(** An assignment to one property leaves the others as they are. *)
Lemma prop_get_put_other : forall current part k v,
  k <> part ->
  prop_get (prop_put current part v) k = prop_get current k.
Proof.
  intros [] part k v Hk; simpl; try reflexivity.
  - destruct (parse_index part) as [i |] eqn:Ei; simpl.
    + destruct (parse_index k) as [j |] eqn:Ej; [| reflexivity].
      apply list_set_other. intros ->. apply Hk.
      exact (parse_index_inj _ _ _ Ej Ei).
    + destruct (parse_index k); [reflexivity |].
      rewrite assoc_set_other by exact Hk. reflexivity.
  - rewrite assoc_set_other by exact Hk. reflexivity.
Qed.

Lemma prop_put_array : forall current part v,
  is_array (prop_put current part v) = is_array current.
Proof.
  intros [] part v; simpl; try reflexivity.
  destruct (parse_index part); reflexivity.
Qed.

Lemma descend_array : forall child, is_array (descend child) = is_array child.
Proof.
  intros []; reflexivity.
Qed.

(** One turn of the loop of [_findAndSet]: the node is the one that was
    there, with the property of the segment assigned. *)
Lemma set_loop_step : forall current part post v current',
  is_object current = true ->
  set_loop current (part :: post) v = Ok current' ->
  current' = prop_put current part (prop_get current' part).
Proof.
  intros current part post v current' Hobj Hs.
  destruct post as [|p post].
  - simpl in Hs. unfold prop_set in Hs. rewrite Hobj in Hs.
    injection Hs as <-. rewrite prop_get_put by exact Hobj. reflexivity.
  - rewrite set_loop_cons in Hs by (auto; discriminate).
    destruct (set_loop (descend (prop_get current part)) (p :: post) v)
      as [child' |]; [| discriminate].
    injection Hs as <-. rewrite prop_get_put by exact Hobj. reflexivity.
Qed.

(** C6, as the code has it.  On a document that is a map or an array, with
    a valid path of plain names, [_findAndSet] returns the document as the
    assignments of its loop have left it.  The path then leads to the
    value.  At every segment of the path, the node that holds the segment
    is the node that was there, when that was a map or an array, and a
    fresh empty map when that was a scalar, [null] or nothing; in either
    case with the one property of the segment assigned.  So an array stays
    an array, a map stays a map, and only what is neither is replaced.
    The other properties of these nodes, and all that lies under them, are
    as they were: a path that leaves the path of the assignment at some
    segment leads to what it led to before. *)
Theorem findAndSet_shape :
  forall (separator : ascii) (id : string) (data v : value),
    _validateID separator id = true ->
    plain_path separator id = true ->
    is_object data = true ->
    exists data',
      _findAndSet separator data id v = Ok data'
      /\ node_at data' (split separator id) = v
      /\ (forall pre part post,
            split separator id = pre ++ part :: post ->
            is_object (node_at data' pre) = true
            /\ is_array (node_at data' pre) = is_array (node_at data pre)
            /\ node_at data' pre
               = prop_put (if is_object (node_at data pre)
                           then node_at data pre else VObj [])
                          part (node_at data' (pre ++ [part])))
      /\ (forall pre part post other rest,
            split separator id = pre ++ part :: post ->
            other <> part ->
            plain_name other = true ->
            node_at data' (pre ++ other :: rest)
            = node_at data (pre ++ other :: rest)).
Proof.
  intros separator id data v Hv _ Hobj.
  destruct (set_loop_shape (split separator id) data v
              (split_nonempty separator id) Hobj) as [data' [H1 [_ [H3 H4]]]].
  exists data'. unfold _findAndSet. rewrite Hv.
  split; [exact H1 |]. split; [exact H3 |].
  assert (Hnode : forall pre part post,
            split separator id = pre ++ part :: post ->
            is_object (node_at data' pre) = true
            /\ node_at data' pre
               = prop_put (descend (node_at data pre)) part
                          (prop_get (node_at data' pre) part)).
  { intros pre part post Hs.
    destruct (H4 pre (part :: post) Hs) as [Ho Hl]; [discriminate |].
    split; [exact Ho |].
    exact (set_loop_step _ _ _ _ _ (descend_object _) Hl). }
  split.
  - intros pre part post Hs. destruct (Hnode pre part post Hs) as [Ho He].
    split; [exact Ho |]. split.
    + rewrite He, prop_put_array. apply descend_array.
    + rewrite node_at_app, Ho. simpl node_at. rewrite Ho. exact He.
  - intros pre part post other rest Hs Hne _.
    destruct (Hnode pre part post Hs) as [Ho He].
    rewrite !node_at_app, Ho. simpl node_at. rewrite Ho.
    rewrite He, prop_get_put_other by exact Hne.
    unfold descend. destruct (is_object (node_at data pre)) eqn:E.
    + reflexivity.
    + simpl. destruct rest; reflexivity.
Qed.

Lemma findAndSet_shape_witness :
  let data := VObj [("a", VNum 1); ("c", VArr [VNum 7] [])] in
  exists data',
    _findAndSet "."%char data "a.b" (VStr "x") = Ok data'
    /\ node_at data' ["a"; "b"] = VStr "x"
    /\ node_at data' ["a"] = VObj [("b", VStr "x")]
    /\ node_at data' ["c"; "0"] = VNum 7
    /\ data' = VObj [("a", VObj [("b", VStr "x")]); ("c", VArr [VNum 7] [])].
Proof.
  intros data.
  destruct (findAndSet_shape "."%char "a.b" data (VStr "x")
              eq_refl eq_refl eq_refl) as [data' [H1 [H2 [H3 H4]]]].
  exists data'. split; [exact H1 |]. split; [exact H2 |].
  destruct (H3 ["a"] "b" [] eq_refl) as [_ [_ Hb]].
  destruct (H3 [] "a" ["b"] eq_refl) as [_ [_ Ha]].
  change (node_at data' ["a"; "b"] = VStr "x") in H2.
  change (node_at data' (["a"] ++ ["b"])) with (node_at data' ["a"; "b"])
    in Hb.
  rewrite H2 in Hb.
  change (node_at data' ["a"] = VObj [("b", VStr "x")]) in Hb.
  change (data' = prop_put data "a" (node_at data' ["a"])) in Ha.
  rewrite Hb in Ha.
  split; [exact Hb |]. split.
  - apply (H4 [] "a" ["b"] "c" ["0"] eq_refl); [discriminate | reflexivity].
  - exact Ha.
Defined.

(** ** Writing, then reading *)

Lemma read_doc : forall file w data,
  files w file = Doc data ->
  _read file w = (Ok data, World (files w) (log w ++ [ReadFile file])).
Proof.
  intros file w data H. unfold _read, read_parse. rewrite H. reflexivity.
Qed.

Lemma read_missing : forall file w,
  files w file = Missing ->
  _read file w =
    (Ok (VObj []),
     World (upd (files w) file (Doc (VObj [])))
           ((log w ++ [ReadFile file]) ++ [WriteFile file])).
Proof.
  intros file w H. unfold _read, read_parse. rewrite H. simpl.
  unfold bind, _write, write_json. simpl. rewrite H. reflexivity.
Qed.

Lemma upd_same : forall fs path st, upd fs path st path = st.
Proof.
  intros fs path st. unfold upd. rewrite String.eqb_refl. reflexivity.
Qed.

Lemma write_object : forall file w data,
  is_object data = true ->
  files w file <> Faulty ->
  _write file data w =
    (Ok tt, World (upd (files w) file (Doc (jsonify data)))
                  (log w ++ [WriteFile file])).
Proof.
  intros file w data Hobj Hf. unfold _write, write_json.
  destruct data; try discriminate;
    destruct (files w file); try reflexivity; contradiction.
Qed.

Lemma jsonify_defined : forall v, jsonify v <> VUndef.
Proof.
  intros []; simpl; try discriminate.
  unfold jsonify_num. destruct (PrimFloat.is_finite f); discriminate.
Qed.

Lemma assoc_jsonify_set : forall k v ps,
  v <> VUndef ->
  assoc k (jsonify_props (assoc_set k v ps)) = Some (jsonify v).
Proof.
  intros k v ps Hv. induction ps as [|[k' v'] ps IH]; simpl.
  - destruct v; try contradiction; simpl; rewrite String.eqb_refl; reflexivity.
  - destruct (String.eqb k k') eqn:E.
    + destruct v; try contradiction; simpl; rewrite E; reflexivity.
    + destruct v'; simpl; rewrite ?E; exact IH.
Qed.

Lemma object_not_undef : forall v, is_object v = true -> v <> VUndef.
Proof.
  intros v H E. subst v. discriminate.
Qed.

Lemma no_array_on_undef : forall parts, no_array_on VUndef parts = true.
Proof.
  induction parts as [|part parts IH]; simpl; auto.
Qed.

Lemma no_array_on_descend : forall parts child,
  no_array_on child parts = true ->
  no_array_on (descend child) parts = true.
Proof.
  intros parts child H. unfold descend.
  destruct (is_object child); [exact H |].
  destruct parts as [|part parts]; simpl; [reflexivity |].
  apply no_array_on_undef.
Qed.

Lemma jsonify_object : forall v,
  is_object v = true -> is_object (jsonify v) = true.
Proof.
  intros [] H; try discriminate; reflexivity.
Qed.

(** On a path that passes no array, what [_findAndSet] has assigned is
    found again in the serialized document, in which the path still passes
    no array. *)
Lemma set_loop_jsonify : forall parts current v,
  parts <> [] ->
  is_object current = true ->
  no_array_on current parts = true ->
  v <> VUndef ->
  exists data',
    set_loop current parts v = Ok data'
    /\ is_object data' = true
    /\ node_at (jsonify data') parts = jsonify v
    /\ no_array_on (jsonify data') parts = true.
Proof.
  induction parts as [|part parts IH]; intros current v Hp Hobj Hna Hv;
    [contradiction |].
  simpl in Hna. apply andb_true_iff in Hna. destruct Hna as [Harr Hna].
  destruct current as [| | | | | |props]; try discriminate.
  destruct parts as [|p parts].
  - exists (VObj (assoc_set part v props)). repeat split.
    change (jsonify (VObj (assoc_set part v props)))
      with (VObj (jsonify_props (assoc_set part v props))).
    simpl. rewrite assoc_jsonify_set by exact Hv. reflexivity.
  - destruct (IH (descend (prop_get (VObj props) part)) v)
      as [child' [Hc [Ho [Hn Hk]]]];
      [discriminate | apply descend_object
      | apply no_array_on_descend; exact Hna | exact Hv |].
    exists (VObj (assoc_set part child' props)).
    rewrite set_loop_cons by (auto; discriminate). rewrite Hc.
    change (jsonify (VObj (assoc_set part child' props)))
      with (VObj (jsonify_props (assoc_set part child' props))).
    assert (G : prop_get (VObj (jsonify_props (assoc_set part child' props)))
                         part = jsonify child').
    { unfold prop_get.
      rewrite assoc_jsonify_set by (apply object_not_undef; exact Ho).
      reflexivity. }
    repeat split.
    + change (node_at (VObj (jsonify_props (assoc_set part child' props)))
                      (part :: p :: parts))
        with (node_at (prop_get (VObj (jsonify_props
                                         (assoc_set part child' props)))
                                part) (p :: parts)).
      rewrite G. exact Hn.
    + change (no_array_on (VObj (jsonify_props (assoc_set part child' props)))
                          (part :: p :: parts))
        with (no_array_on (prop_get (VObj (jsonify_props
                                             (assoc_set part child' props)))
                                    part) (p :: parts)).
      rewrite G. exact Hk.
Qed.

(** A write through an array is lost: [set] reports success, and [get]
    finds nothing.  The documents are built with [set] from an absent
    file.  A number that JSON does not represent is read back as [null]. *)
Lemma set_through_array_is_lost :
  let w0 := World (fun _ => Missing) [] in
  let w1 := snd (set "db.json" "."%char "a" (VArr [VNum 1] []) w0) in
  let w2 := snd (set "db.json" "."%char "a.b" (VNum 5) w1) in
  let w3 := snd (set "db.json" "."%char "n" (VNum PrimFloat.nan) w0) in
  _validateID "."%char "a.b" = true
  /\ fst (set "db.json" "."%char "a" (VArr [VNum 1] []) w0)
     = Ok (VArr [VNum 1] [])
  /\ fst (set "db.json" "."%char "a.b" (VNum 5) w1) = Ok (VNum 5)
  /\ fst (get "db.json" "."%char "a.b" w2) = Ok VNull
  /\ fst (get "db.json" "."%char "a.b" w2) <> Ok (VNum 5)
  /\ fst (set "db.json" "."%char "n" (VNum PrimFloat.nan) w0)
     = Ok (VNum PrimFloat.nan)
  /\ fst (get "db.json" "."%char "n" w3) = Ok VNull.
Proof.
  vm_compute. repeat split. discriminate.
Qed.

(** C2, as the code has it.  Let the file hold a map, or be absent, let the
    path be valid, made of plain names, and pass no array of the document,
    and let the value be defined.  Then [set] succeeds and returns the
    value, and a [get] of the same path returns the value as the file
    represents it: the value itself when it serializes to itself. *)
Theorem set_then_get :
  forall (file : string) (separator : ascii) (id : string) (w : world)
         (data v : value),
    _validateID separator id = true ->
    plain_path separator id = true ->
    files w file = Doc data \/ (files w file = Missing /\ data = VObj []) ->
    is_object data = true ->
    no_array_on data (split separator id) = true ->
    v <> VUndef ->
    exists w1,
      set file separator id v w = (Ok v, w1)
      /\ fst (get file separator id w1) = Ok (jsonify v)
      /\ (jsonify v = v -> fst (get file separator id w1) = Ok v).
Proof.
  intros file separator id w data v Hv _ Hfile Hobj Hna Hdef.
  destruct (set_loop_jsonify (split separator id) data v
              (split_nonempty separator id) Hobj Hna Hdef)
    as [data' [Hset [Hobj' [Hnode _]]]].
  assert (Hget : forall fs l,
            fst (get file separator id
                   (World (upd fs file (Doc (jsonify data'))) l))
            = Ok (jsonify v)).
  { intros fs l. unfold get. rewrite (valid_nonempty _ _ Hv).
    unfold bind. rewrite (read_doc file _ (jsonify data')) by apply upd_same.
    unfold lift, _find. rewrite Hv, find_loop_node_at, Hnode. simpl.
    pose proof (jsonify_defined v) as Hj.
    destruct (jsonify v); try reflexivity. contradiction. }
  assert (Hfs : _findAndSet separator data id v = Ok data').
  { unfold _findAndSet. rewrite Hv. exact Hset. }
  unfold set. rewrite (valid_nonempty _ _ Hv).
  destruct Hfile as [Hdoc | [Hmiss ->]].
  - eexists. split; [| split; [apply Hget | intros <-; apply Hget]].
    destruct v; try contradiction;
      unfold bind; rewrite (read_doc _ _ _ Hdoc); unfold lift; rewrite Hfs;
      (rewrite write_object; [reflexivity | exact Hobj' |
                              simpl; rewrite Hdoc; discriminate]).
  - eexists. split; [| split; [apply Hget | intros <-; apply Hget]].
    destruct v; try contradiction;
      unfold bind; rewrite (read_missing _ _ Hmiss); unfold lift; rewrite Hfs;
      (rewrite write_object; [reflexivity | exact Hobj' |
                              simpl; rewrite upd_same; discriminate]).
Qed.

Lemma set_then_get_witness :
  exists w1,
    set "db.json" "_"%char "user_profile_name" (VStr "nopeion")
        (World (fun _ => Missing) []) = (Ok (VStr "nopeion"), w1)
    /\ fst (get "db.json" "_"%char "user_profile_name" w1)
       = Ok (VStr "nopeion").
Proof.
  destruct (set_then_get "db.json" "_"%char "user_profile_name"
              (World (fun _ => Missing) []) (VObj []) (VStr "nopeion"))
    as [w1 [H1 [H2 _]]]; try reflexivity.
  - right. split; reflexivity.
  - discriminate.
  - exists w1. split; [exact H1 | exact H2].
Defined.

(** ** Validation of the key path *)

(** A path that starts with the separator is rejected only after the file
    has been read: on a file that does not parse the error is the parse
    error, and on an absent file the file is created.  [delete] does not
    call [_validateID]: it answers [false], or deletes under the empty
    name. *)
Lemma validation_comes_after_read :
  let holding (st : fstate) := World (upd (fun _ => Missing) "db.json" st) [] in
  _validateID "."%char ".a" = false
  /\ get "db.json" "."%char ".a" (holding (Doc (VObj [])))
     = (Throw nonValidID,
        World (files (holding (Doc (VObj [])))) [ReadFile "db.json"])
  /\ fst (get "db.json" "."%char ".a" (holding (Malformed "{oops")))
     = Throw parseError
  /\ log (snd (set "db.json" "."%char ".a" (VNum 1) (holding Missing)))
     = [ReadFile "db.json"; WriteFile "db.json"]
  /\ fst (delete "db.json" "."%char ".a" (holding (Doc (VObj [])))) = Ok false
  /\ delete "db.json" "."%char ".a"
       (holding (Doc (VObj [("", VObj [("a", VNum 1)])])))
     = (Ok true,
        World (upd (files (holding (Doc (VObj [("", VObj [("a", VNum 1)])]))))
                   "db.json" (Doc (VObj [("", VObj [])])))
              [ReadFile "db.json"; WriteFile "db.json"]).
Proof.
  repeat split.
Qed.

Lemma ends_with_separator : forall separator pre,
  endsWith_sep separator (pre ++ String separator "") = true.
Proof.
  intros separator pre. induction pre as [|c pre IH].
  - simpl. apply Ascii.eqb_refl.
  - change ((String c pre ++ String separator "")%string)
      with (String c (pre ++ String separator "")%string).
    destruct pre as [|d pre]; simpl in *; [apply Ascii.eqb_refl | exact IH].
Qed.

Lemma includes_doubled_separator : forall separator pre post,
  includes_sep_sep separator
    (pre ++ String separator (String separator post)) = true.
Proof.
  intros separator pre post. induction pre as [|c pre IH].
  - simpl. rewrite Ascii.eqb_refl. reflexivity.
  - change ((String c pre
             ++ String separator (String separator post))%string)
      with (String c
              (pre ++ String separator (String separator post))%string).
    destruct pre as [|d pre].
    + simpl. rewrite Ascii.eqb_refl. simpl. apply orb_true_r.
    + change ((String d pre
               ++ String separator (String separator post))%string)
        with (String d
                (pre ++ String separator (String separator post))%string)
        in *.
      change (includes_sep_sep separator
                (String c (String d
                   (pre ++ String separator (String separator post)))))
        with ((Ascii.eqb c separator && Ascii.eqb d separator)
              || includes_sep_sep separator
                   (String d
                      (pre ++ String separator (String separator post))))%bool.
      rewrite IH. apply orb_true_r.
Qed.

(** A key path that starts or ends with the separator, or holds two
    separators in a row, does not pass [_validateID]. *)
Lemma misplaced_separator_invalid : forall separator id,
  (exists rest, id = String separator rest)
  \/ (exists pre, id = (pre ++ String separator "")%string)
  \/ (exists pre post,
        id = (pre ++ String separator (String separator post))%string) ->
  _validateID separator id = false /\ String.eqb id "" = false.
Proof.
  intros separator id H. unfold _validateID.
  destruct H as [[rest ->] | [[pre ->] | [pre [post ->]]]].
  - simpl. rewrite Ascii.eqb_refl. split; reflexivity.
  - rewrite ends_with_separator, orb_true_r. simpl.
    split; [reflexivity |]. destruct pre; reflexivity.
  - rewrite includes_doubled_separator, !orb_true_r.
    split; [reflexivity |]. destruct pre; reflexivity.
Qed.

(** C3, as the code has it.  An empty key path makes every key-addressed
    operation throw before any file access, whatever the file and the
    value.  A key path that starts or ends with the separator, or holds two
    separators in a row, makes [set], [get], [add], [subtract], [has] and
    [push] throw only once the document has been read: the operation ends
    as [_read] ends, with the invalid-key error when the read returns and
    with the error of the read when it throws.  So on a file that holds a
    document nothing is written; on an absent file the read has created
    the file with an empty map before the error; on a file that does not
    parse, or cannot be accessed, the error is that of the read. *)
Theorem invalid_key_rejected :
  forall (file : string) (separator : ascii) (id : string) (w : world)
         (v : value) (delta : float),
    (set file separator "" v w = (Throw undefinedID, w)
     /\ get file separator "" w = (Throw undefinedID, w)
     /\ add file separator "" v w = (Throw undefinedID, w)
     /\ subtract file separator "" (VNum delta) w = (Throw undefinedID, w)
     /\ has file separator "" w = (Throw undefinedID, w)
     /\ push file separator "" v w = (Throw undefinedID, w)
     /\ delete file separator "" w = (Throw undefinedID, w))
    /\ ((exists rest, id = String separator rest)
        \/ (exists pre, id = (pre ++ String separator "")%string)
        \/ (exists pre post,
              id = (pre ++ String separator (String separator post))%string)
        ->
        v <> VUndef ->
        let rejected := fun (A : Type) =>
          ((match fst (_read file w) with
            | Ok _ => Throw nonValidID
            | Throw e => Throw e
            end, snd (_read file w)) : outcome A * world) in
        set file separator id v w = rejected value
        /\ get file separator id w = rejected value
        /\ add file separator id (VNum delta) w = rejected value
        /\ subtract file separator id (VNum delta) w = rejected value
        /\ has file separator id w = rejected bool
        /\ push file separator id v w = rejected value
        /\ (forall (A : Type) data, files w file = Doc data ->
            rejected A
            = (Throw nonValidID, World (files w) (log w ++ [ReadFile file])))
        /\ (forall A : Type, files w file = Missing ->
            rejected A
            = (Throw nonValidID,
               World (upd (files w) file (Doc (VObj [])))
                     ((log w ++ [ReadFile file]) ++ [WriteFile file])))
        /\ (forall (A : Type) raw, files w file = Malformed raw ->
            rejected A
            = (Throw parseError, World (files w) (log w ++ [ReadFile file])))
        /\ (forall A : Type, files w file = Faulty ->
            rejected A
            = (Throw unableToRead,
               World (files w) (log w ++ [ReadFile file])))).
Proof.
  intros file separator id w v delta. split.
  - repeat split.
  - intros Hshape Hdef rejected.
    destruct (misplaced_separator_invalid separator id Hshape) as [Hv Hid].
    assert (Hops :
      set file separator id v w = rejected value
      /\ get file separator id w = rejected value
      /\ add file separator id (VNum delta) w = rejected value
      /\ subtract file separator id (VNum delta) w = rejected value
      /\ has file separator id w = rejected bool
      /\ push file separator id v w = rejected value).
    { unfold rejected, subtract, set, get, add, has, push. rewrite Hid.
      destruct v; try contradiction;
        unfold bind;
        destruct (_read file w) as [[data | e] w1]; simpl;
        unfold lift, _findAndSet, _find; rewrite ?Hv; repeat split. }
    destruct Hops as [H1 [H2 [H3 [H4 [H5 H6]]]]].
    repeat (split; [assumption |]).
    unfold rejected. split; [| split; [| split]].
    + intros A data Hdoc. rewrite (read_doc _ _ _ Hdoc). reflexivity.
    + intros A Hm. rewrite (read_missing _ _ Hm). reflexivity.
    + intros A raw Hm. unfold _read, read_parse. rewrite Hm. reflexivity.
    + intros A Hm. unfold _read, read_parse. rewrite Hm. reflexivity.
Qed.

Lemma invalid_key_rejected_witness :
  let w := World (upd (fun _ => Missing) "db.json" (Doc (VObj []))) [] in
  has "db.json" "."%char "a..b" w
  = (Throw nonValidID, World (files w) [ReadFile "db.json"])
  /\ set "db.json" "."%char ".a" (VNum 1) (World (fun _ => Missing) [])
     = (Throw nonValidID,
        World (upd (fun _ => Missing) "db.json" (Doc (VObj [])))
              [ReadFile "db.json"; WriteFile "db.json"])
  /\ get "db.json" "."%char "a." (World (fun _ => Malformed "{oops") [])
     = (Throw parseError,
        World (fun _ => Malformed "{oops") [ReadFile "db.json"]).
Proof.
  intros w. split; [| split].
  - destruct (proj2 (invalid_key_rejected "db.json" "."%char "a..b" w
                       VNull 1%float))
      as [_ [_ [_ [_ [H [_ [Hd _]]]]]]].
    + right. right. exists "a", "b". reflexivity.
    + discriminate.
    + rewrite H. apply (Hd bool (VObj [])). reflexivity.
  - destruct (proj2 (invalid_key_rejected "db.json" "."%char ".a"
                       (World (fun _ => Missing) []) (VNum 1) 1%float))
      as [H [_ [_ [_ [_ [_ [_ [Hm _]]]]]]]].
    + left. exists "a". reflexivity.
    + discriminate.
    + rewrite H. apply (Hm value). reflexivity.
  - destruct (proj2 (invalid_key_rejected "db.json" "."%char "a."
                       (World (fun _ => Malformed "{oops") []) VNull 1%float))
      as [_ [H [_ [_ [_ [_ [_ [_ [Hp _]]]]]]]]].
    + right. left. exists "a". reflexivity.
    + discriminate.
    + rewrite H. apply (Hp value "{oops"). reflexivity.
Defined.

(** ** Numeric accumulation *)

Lemma jsonify_num_defined : forall x, nullish (jsonify_num x) = jsonify_num x.
Proof.
  intros x. unfold jsonify_num. destruct (PrimFloat.is_finite x); reflexivity.
Qed.

(** A number that the file represents as itself is read back as the
    current value. *)
Lemma or_zero_stored : forall x,
  jsonify_num x = VNum x -> or_zero (VNum x) = x.
Proof.
  intros x H. unfold jsonify_num in H. unfold or_zero.
  destruct (PrimFloat.is_finite x) eqn:Hf; [| discriminate].
  injection H as H. unfold PrimFloat.is_finite in Hf.
  destruct (PrimFloat.is_nan x); [discriminate |].
  destruct (PrimFloat.is_zero x); simpl; [exact H | reflexivity].
Qed.

(** One [add] on a document that is a map, along a path that passes no
    array. *)
Lemma add_runs :
  forall file separator id w data cur delta,
    _validateID separator id = true ->
    files w file = Doc data ->
    is_object data = true ->
    no_array_on data (split separator id) = true ->
    _find separator data id = Ok cur ->
    cur = VNull \/ is_number cur = true ->
    exists data',
      add file separator id (VNum delta) w =
        (Ok (VNum (or_zero cur + delta)),
         World (upd (files w) file (Doc (jsonify data')))
               ((log w ++ [ReadFile file]) ++ [WriteFile file]))
      /\ is_object (jsonify data') = true
      /\ no_array_on (jsonify data') (split separator id) = true
      /\ _find separator (jsonify data') id
         = Ok (jsonify_num (or_zero cur + delta)).
Proof.
  intros file separator id w data cur delta Hv Hdoc Hobj Hna Hfind Hcur.
  destruct (set_loop_jsonify (split separator id) data
              (VNum (or_zero cur + delta))
              (split_nonempty separator id) Hobj Hna)
    as [data' [Hset [Hobj' [Hnode Hna']]]]; [discriminate |].
  exists data'. split; [| split; [| split]].
  - unfold add. rewrite (valid_nonempty _ _ Hv).
    unfold bind. rewrite (read_doc _ _ _ Hdoc). unfold lift. rewrite Hfind.
    assert (Hfs : _findAndSet separator data id (VNum (or_zero cur + delta))
                  = Ok data').
    { unfold _findAndSet. rewrite Hv. exact Hset. }
    destruct Hcur as [-> | Hnum].
    + rewrite Hfs. rewrite write_object; [reflexivity | exact Hobj' |].
      simpl. rewrite Hdoc. discriminate.
    + destruct cur; try discriminate.
      rewrite Hfs. rewrite write_object; [reflexivity | exact Hobj' |].
      simpl. rewrite Hdoc. discriminate.
  - apply jsonify_object. exact Hobj'.
  - exact Hna'.
  - unfold _find. rewrite Hv, find_loop_node_at, Hnode. simpl.
    rewrite jsonify_num_defined. reflexivity.
Qed.

Lemma get_reads : forall file separator id fs l data r,
  _validateID separator id = true ->
  _find separator data id = Ok r ->
  fst (get file separator id (World (upd fs file (Doc data)) l)) = Ok r.
Proof.
  intros file separator id fs l data r Hv Hfind.
  unfold get. rewrite (valid_nonempty _ _ Hv). unfold bind.
  rewrite (read_doc file _ data) by apply upd_same.
  unfold lift. rewrite Hfind. reflexivity.
Qed.

(** C8. When the value stored at the path is present and is not a number
    (a string, say), [add] throws the type error after it has read the
    document and before any write: the file is left as it was. *)
Theorem add_on_non_number :
  forall (file : string) (separator : ascii) (id : string) (delta : float)
         (w : world) (data cur : value),
    files w file = Doc data ->
    _find separator data id = Ok cur ->
    cur <> VNull ->
    is_number cur = false ->
    add file separator id (VNum delta) w =
      (Throw dataNotANumber, World (files w) (log w ++ [ReadFile file])).
Proof.
  intros file separator id delta w data cur Hdoc Hfind Hnull Hnum.
  unfold add. rewrite (find_nonempty _ _ _ _ Hfind).
  unfold bind, _read, read_parse, lift. rewrite Hdoc, Hfind.
  destruct cur; try reflexivity; [contradiction | discriminate].
Qed.

Lemma add_on_non_number_witness :
  let w := World (upd (fun _ => Missing) "db.json"
                      (Doc (VObj [("name", VStr "nope")]))) [] in
  add "db.json" "."%char "name" (VNum 1) w =
    (Throw dataNotANumber, World (files w) [ReadFile "db.json"]).
Proof.
  intros w.
  apply (@add_on_non_number "db.json" "."%char "name" 1%float w
           (VObj [("name", VStr "nope")]) (VStr "nope"));
    try reflexivity; discriminate.
Defined.

(** Two additions that round differ from the one addition of the sum:
    with [2^53] stored, adding [1] twice leaves [2^53], and adding [2]
    leaves [2^53 + 2]. *)
Lemma accumulation_rounds :
  let w := World (upd (fun _ => Missing) "db.json"
                      (Doc (VObj [("n", VNum 9007199254740992)]))) [] in
  let w1 := snd (add "db.json" "."%char "n" (VNum 1) w) in
  let w2 := snd (add "db.json" "."%char "n" (VNum 1) w1) in
  let w3 := snd (add "db.json" "."%char "n" (VNum (1 + 1)) w) in
  fst (add "db.json" "."%char "n" (VNum 1) w1) = Ok (VNum 9007199254740992)
  /\ fst (add "db.json" "."%char "n" (VNum (1 + 1)) w)
     = Ok (VNum 9007199254740994)
  /\ fst (get "db.json" "."%char "n" w2) = Ok (VNum 9007199254740992)
  /\ fst (get "db.json" "."%char "n" w3) = Ok (VNum 9007199254740994)
  /\ fst (get "db.json" "."%char "n" w2) <> fst (get "db.json" "."%char "n" w3).
Proof.
  vm_compute. repeat split. discriminate.
Qed.

(** C7, as the code has it.  Let the file hold a map, let the path be
    valid, made of plain names, and pass no array, and let the current
    value [cur] be not-found or a number; [or_zero cur] is that number,
    with not-found (and a zero) taken as [0].  Then [add] returns
    [or_zero cur + a] and stores it as the file represents it, and
    [subtract] of [b] is [add] of [-b].  When the first sum is a number
    that the file represents as itself, a second [add] of [b] returns and
    stores [(or_zero cur + a) + b] in binary64 arithmetic; this is what one
    [add] of [a + b] stores, [or_zero cur + (a + b)], when the two sums
    agree. *)
Theorem add_accumulates :
  forall (file : string) (separator : ascii) (id : string) (w : world)
         (data cur : value) (a b : float),
    _validateID separator id = true ->
    plain_path separator id = true ->
    files w file = Doc data ->
    is_object data = true ->
    no_array_on data (split separator id) = true ->
    _find separator data id = Ok cur ->
    cur = VNull \/ is_number cur = true ->
    exists w1 w3,
      add file separator id (VNum a) w = (Ok (VNum (or_zero cur + a)), w1)
      /\ (cur = VNull ->
          add file separator id (VNum a) w = (Ok (VNum (0 + a)), w1))
      /\ fst (get file separator id w1) = Ok (jsonify_num (or_zero cur + a))
      /\ (forall w', subtract file separator id (VNum b) w'
                     = add file separator id (VNum (- b)) w')
      /\ add file separator id (VNum (a + b)) w
         = (Ok (VNum (or_zero cur + (a + b))), w3)
      /\ fst (get file separator id w3)
         = Ok (jsonify_num (or_zero cur + (a + b)))
      /\ (jsonify_num (or_zero cur + a) = VNum (or_zero cur + a) ->
          exists w2,
            add file separator id (VNum b) w1
            = (Ok (VNum ((or_zero cur + a) + b)), w2)
            /\ fst (get file separator id w2)
               = Ok (jsonify_num ((or_zero cur + a) + b))
            /\ ((or_zero cur + a) + b = or_zero cur + (a + b) ->
                fst (get file separator id w2)
                = fst (get file separator id w3)))%float.
Proof.
  intros file separator id w data cur a b Hv _ Hdoc Hobj Hna Hfind Hcur.
  destruct (add_runs file separator id w data cur a Hv Hdoc Hobj Hna Hfind Hcur)
    as [d1 [Ha1 [Ho1 [Hn1 Hf1]]]].
  destruct (add_runs file separator id w data cur (a + b)%float
              Hv Hdoc Hobj Hna Hfind Hcur)
    as [d3 [Ha3 [Ho3 [Hn3 Hf3]]]].
  eexists. eexists.
  split; [exact Ha1 |].
  split; [intros ->; exact Ha1 |].
  split; [apply get_reads; assumption |].
  split; [reflexivity |].
  split; [exact Ha3 |].
  split; [apply get_reads; assumption |].
  intros Hst. rewrite Hst in Hf1.
  destruct (add_runs file separator id
              (World (upd (files w) file (Doc (jsonify d1)))
                     ((log w ++ [ReadFile file]) ++ [WriteFile file]))
              (jsonify d1) (VNum (or_zero cur + a)%float) b
              Hv (upd_same _ _ _) Ho1 Hn1 Hf1 (or_intror eq_refl))
    as [d2 [Ha2 [Ho2 [Hn2 Hf2]]]].
  rewrite (or_zero_stored _ Hst) in Ha2, Hf2.
  eexists. split; [exact Ha2 |].
  split; [apply get_reads; assumption |].
  intros Hsum.
  rewrite (get_reads file separator id _ _ _ _ Hv Hf2).
  rewrite (get_reads file separator id _ _ _ _ Hv Hf3).
  rewrite Hsum. reflexivity.
Qed.

Lemma add_accumulates_witness :
  exists w1,
    add "db.json" "_"%char "counter" (VNum 5)
        (World (upd (fun _ => Missing) "db.json"
                    (Doc (VObj [("counter", VNum 10)]))) [])
    = (Ok (VNum 15), w1)
    /\ fst (get "db.json" "_"%char "counter" w1) = Ok (VNum 15).
Proof.
  destruct (add_accumulates "db.json" "_"%char "counter"
              (World (upd (fun _ => Missing) "db.json"
                          (Doc (VObj [("counter", VNum 10)]))) [])
              (VObj [("counter", VNum 10)]) (VNum 10) 5%float 1%float
              eq_refl eq_refl eq_refl eq_refl eq_refl eq_refl
              (or_intror eq_refl))
    as [w1 [w3 [H1 [_ [H2 _]]]]].
  exists w1. split; [exact H1 | exact H2].
Defined.

(** ** The operation queue *)

(** A storage operation is one atomic section: run alone, it is the
    operation itself. *)
Lemma run_atomic : forall (A : Type) (t : task A) (w : world),
  run_body (atomic t) w = (snd (t w), fst (t w)).
Proof.
  reflexivity.
Qed.

(** Run alone, the staged body of [set] is [set]: what the queue
    guarantees for bodies that suspend holds for the operation. *)
Lemma run_set_staged : forall file separator id v w,
  run_body (set_staged file separator id v) w
  = (snd (set file separator id v w), fst (set file separator id v w)).
Proof.
  intros file separator id v w. unfold set_staged, set.
  destruct (String.eqb id ""); [reflexivity |].
  destruct v; try reflexivity;
    simpl; unfold bind, lift;
    destruct (_read file w) as [[data | e] w1]; simpl; try reflexivity;
    (match goal with
     | |- context [_findAndSet ?s ?d ?i ?x] =>
         destruct (_findAndSet s d i x) as [data' | e]; simpl;
         try reflexivity
     end);
    destruct (_write file data' w1) as [[u | e] w2]; reflexivity.
Qed.

Section QueueFacts.

Variable State : Type.
Variable R : Type.

Implicit Types (e : entry State R) (es : list (entry State R)).

Lemma last_status_cons : forall p e es,
  last_status p (e :: es) = last_status (status (chained e)) es.
Proof.
  intros p e es. unfold last_status. simpl.
  destruct (rev es); reflexivity.
Qed.

Lemma idle_last_status : forall es,
  Forall (@idle State R) es -> last_status Pending es = Pending.
Proof.
  induction 1 as [|e es [_ Hw] _ IH]; [reflexivity |].
  rewrite last_status_cons, Hw. exact IH.
Qed.

Lemma idle_chain : forall es i s,
  Forall (@idle State R) es -> chain i s es s [].
Proof.
  intros [|e es] i s H; [apply chain_nil |].
  inversion H as [|? ? [Hc Hw] Hes]; subst.
  apply chain_waiting; auto. rewrite Hc. discriminate.
Qed.

(** A job keeps the shape of the chain. *)
Lemma chain_fire : forall l1 i s e l2 sh tr p e' sh' evs,
  chain i s (l1 ++ e :: l2) sh tr ->
  fire (last_status p l1) (i + List.length l1) sh e e' sh' evs ->
  chain i s (l1 ++ e' :: l2) sh' (tr ++ evs).
Proof.
  induction l1 as [|x l1 IH]; intros i s e l2 sh tr p e' sh' evs Hc Hf.
  - simpl in *. rewrite Nat.add_0_r in Hf.
    inversion Hc; subst; inversion Hf; subst; try congruence.
    + (* a running task runs a section *)
      match goal with
      | H1 : chained e = Running _, H2 : chained e = Running _ |- _ =>
          rewrite H1 in H2; injection H2 as ->
      end.
      eapply chain_running; simpl; eauto. apply block_ran. assumption.
    + (* a running task returns *)
      match goal with
      | H1 : chained e = Running _, H2 : chained e = Running _ |- _ =>
          rewrite H1 in H2; injection H2 as ->
      end.
      rewrite <- (app_nil_r (tr ++ [Ended i])).
      eapply chain_done; simpl; eauto.
      * apply block_ended. assumption.
      * apply idle_chain. assumption.
    + (* the promise of catch fulfils *)
      apply chain_waiting; simpl; auto. discriminate.
    + (* the task is called *)
      eapply chain_running; simpl; eauto. apply block_began.
  - simpl in Hc. rewrite last_status_cons in Hf.
    simpl in Hf. rewrite <- plus_n_Sm in Hf.
    inversion Hc; subst.
    + simpl. rewrite <- app_assoc. eapply chain_done; eauto.
    + exfalso.
      match goal with H : Forall _ (l1 ++ e :: l2) |- _ =>
        apply Forall_app in H; destruct H as [Hl1 He];
        inversion He as [|? ? [Hcatch Hwait] _]; subst
      end.
      match goal with H : chained x = Running _ |- _ => rewrite H in Hf end.
      simpl in Hf. rewrite (idle_last_status _ Hl1) in Hf.
      inversion Hf; congruence.
    + exfalso.
      match goal with H : Forall _ (l1 ++ e :: l2) |- _ =>
        apply Forall_app in H; destruct H as [Hl1 He];
        inversion He as [|? ? [Hcatch Hwait] _]; subst
      end.
      match goal with H : chained x = Waiting |- _ => rewrite H in Hf end.
      simpl in Hf. rewrite (idle_last_status _ Hl1) in Hf.
      inversion Hf; congruence.
Qed.

Lemma chain_enqueue : forall i s es sh tr b,
  chain i s es sh tr ->
  chain i s (es ++ [Entry Pending b Waiting]) sh tr.
Proof.
  intros i s es sh tr b H. induction H; simpl.
  - apply chain_waiting; auto. discriminate.
  - eapply chain_done; eauto.
  - eapply chain_running; eauto.
    apply Forall_app. split; [assumption |]. repeat constructor.
  - apply chain_waiting; auto.
    apply Forall_app. split; [assumption |]. repeat constructor.
Qed.

Lemma reachable_chain : forall (s0 : State) (m : machine State R),
  reachable s0 m -> chain 0 s0 (entries m) (shared m) (trace m).
Proof.
  intros s0 m H. induction H as [|m m' _ IH Hstep].
  - apply chain_nil.
  - destruct Hstep as [b m | m m' Hjob].
    + apply chain_enqueue. exact IH.
    + destruct Hjob as [l1 e l2 s tr e' s' evs Hf]. simpl in *.
      apply chain_fire with (e := e) (sh := s) (p := Fulfilled);
        [exact IH | exact Hf].
Qed.

Lemma idle_not_running : forall es,
  Forall (@idle State R) es -> filter (@running State R) es = [].
Proof.
  induction 1 as [|e es [_ Hw] _ IH]; [reflexivity |].
  simpl. unfold running. rewrite Hw. exact IH.
Qed.

Lemma chain_serial : forall i s es sh tr,
  chain i s es sh tr -> serial_from i tr.
Proof.
  intros i s es sh tr H. induction H.
  - apply serial_nil.
  - apply serial_next; assumption.
  - apply serial_open. assumption.
  - apply serial_nil.
Qed.

Lemma chain_exclusive : forall i s es sh tr,
  chain i s es sh tr -> List.length (filter (@running State R) es) <= 1.
Proof.
  intros i s es sh tr H. induction H; simpl.
  - auto.
  - unfold running at 1.
    match goal with H : chained e = Settled _ |- _ => rewrite H end.
    assumption.
  - unfold running at 1.
    match goal with H : chained e = Running _ |- _ => rewrite H end.
    rewrite idle_not_running by assumption. auto.
  - unfold running at 1.
    match goal with H : chained e = Waiting |- _ => rewrite H end.
    rewrite idle_not_running by assumption. auto.
Qed.

Lemma chain_never_skips : forall i s es sh tr,
  chain i s es sh tr -> forall e, In e es -> caught e <> Rejected.
Proof.
  intros i s es sh tr H. induction H; intros e0 Hin.
  - destruct Hin.
  - destruct Hin as [<- | Hin]; [congruence | auto].
  - destruct Hin as [<- | Hin]; [congruence |].
    match goal with H : Forall _ es |- _ =>
      rewrite Forall_forall in H; destruct (H _ Hin) as [Hc _] end.
    congruence.
  - destruct Hin as [<- | Hin]; [assumption |].
    match goal with H : Forall _ es |- _ =>
      rewrite Forall_forall in H; destruct (H _ Hin) as [Hc _] end.
    congruence.
Qed.

Lemma chain_results : forall i s es sh tr,
  chain i s es sh tr ->
  forall k e r,
    nth_error es k = Some e ->
    chained e = Settled r ->
    nth_error (snd (run_serial (map (@code State R) es) s)) k = Some r.
Proof.
  intros i s es sh tr H. induction H; intros k e0 r0 Hk Hr.
  - destruct k; discriminate.
  - simpl.
    match goal with H : run_body _ _ = _ |- _ => rewrite H end.
    destruct (run_serial (map (@code State R) es) s1) as [s3 rs] eqn:Ers.
    destruct k as [|k]; simpl in *.
    + injection Hk as <-. congruence.
    + exact (IHchain k e0 r0 Hk Hr).
  - exfalso. destruct k as [|k]; simpl in Hk.
    + injection Hk as <-. congruence.
    + apply nth_error_In in Hk.
      match goal with H : Forall _ es |- _ =>
        rewrite Forall_forall in H; destruct (H _ Hk) as [_ Hw] end.
      congruence.
  - exfalso. destruct k as [|k]; simpl in Hk.
    + injection Hk as <-. congruence.
    + apply nth_error_In in Hk.
      match goal with H : Forall _ es |- _ =>
        rewrite Forall_forall in H; destruct (H _ Hk) as [_ Hw] end.
      congruence.
Qed.

Lemma chain_final : forall i s es sh tr,
  chain i s es sh tr ->
  forallb (@settled State R) es = true ->
  sh = fst (run_serial (map (@code State R) es) s).
Proof.
  intros i s es sh tr H. induction H; intros Hall; simpl in *.
  - reflexivity.
  - apply andb_true_iff in Hall. destruct Hall as [_ Hall].
    match goal with H : run_body _ _ = _ |- _ => rewrite H end.
    destruct (run_serial (map (@code State R) es) s1) as [s3 rs] eqn:Ers.
    simpl. apply IHchain in Hall. rewrite ?Ers in Hall. exact Hall.
  - unfold settled in Hall at 1.
    match goal with H : chained e = Running _ |- _ => rewrite H in Hall end.
    discriminate.
  - unfold settled in Hall at 1.
    match goal with H : chained e = Waiting |- _ => rewrite H in Hall end.
    discriminate.
Qed.

(** While an entry is not settled, a job can run: the first such entry is
    running, or its source is settled, whichever way. *)
Lemma chain_progress : forall i s es sh tr,
  chain i s es sh tr ->
  forallb (@settled State R) es = false ->
  exists l1 e l2,
    es = l1 ++ e :: l2
    /\ forall p j, p <> Pending ->
         exists e' sh' evs, fire (last_status p l1) j sh e e' sh' evs.
Proof.
  intros i s es sh tr H. induction H; intros Hall; simpl in *.
  - discriminate.
  - unfold settled in Hall at 1.
    match goal with H : chained e = Settled _ |- _ =>
      rewrite H in Hall; rename H into Hset end.
    simpl in Hall.
    destruct (IHchain Hall) as [l1 [e0 [l2 [-> Hfire]]]].
    exists (e :: l1), e0, l2. split; [reflexivity |].
    intros p j _. rewrite last_status_cons. apply Hfire.
    rewrite Hset. destruct r; discriminate.
  - exists [], e, es. split; [reflexivity |].
    intros p j _. destruct b as [r | effect next].
    + do 3 eexists. apply fire_return. eassumption.
    + do 3 eexists. eapply fire_await. eassumption.
  - exists [], e, es. split; [reflexivity |].
    intros p j Hp. destruct (caught e) eqn:Hc.
    + do 3 eexists. apply fire_catch; assumption.
    + do 3 eexists. apply fire_call; assumption.
    + congruence.
Qed.

Lemma jobs_trans : forall (m1 m2 m3 : machine State R),
  jobs m1 m2 -> jobs m2 m3 -> jobs m1 m3.
Proof.
  intros m1 m2 m3 H12 H23. induction H12; [assumption |].
  eapply jobs_step; eauto.
Qed.

Lemma jobs_reachable : forall (s0 : State) (m m' : machine State R),
  jobs m m' -> reachable s0 m -> reachable s0 m'.
Proof.
  intros s0 m m' H. induction H; intros Hr; [assumption |].
  apply IHjobs. eapply reach_step; [eassumption |]. apply step_job. assumption.
Qed.

Lemma jobs_code : forall (m m' : machine State R),
  jobs m m' ->
  map (@code State R) (entries m') = map (@code State R) (entries m).
Proof.
  intros m m' H. induction H as [|m1 m2 m3 Hj _ IH]; [reflexivity |].
  rewrite IH. destruct Hj as [l1 e l2 s tr e' s' evs Hf]. simpl.
  rewrite !map_app. simpl. f_equal. f_equal.
  destruct Hf; reflexivity.
Qed.

Lemma settled_tail_status : forall es,
  forallb (@settled State R) es = true -> tail_status es <> Pending.
Proof.
  intros es H. unfold tail_status.
  destruct (rev es) as [|e l] eqn:E; [discriminate |].
  assert (Hin : In e es).
  { apply in_rev. rewrite E. left. reflexivity. }
  rewrite forallb_forall in H. specialize (H e Hin).
  unfold settled in H. destruct (chained e) as [| |r]; try discriminate.
  destruct r; discriminate.
Qed.

(** A task that has been called runs to its return, whatever it returns. *)
Lemma running_settles : forall (b : body State R) l1 e l2 sh tr,
  chained e = Running b ->
  exists r sh' tr',
    jobs (Machine (l1 ++ e :: l2) sh tr)
         (Machine (l1 ++ Entry (caught e) (code e) (Settled r) :: l2) sh' tr').
Proof.
  induction b as [r | effect next IH]; intros l1 e l2 sh tr Hb.
  - exists r, sh, (tr ++ [Ended (List.length l1)]).
    eapply jobs_step; [| apply jobs_refl].
    apply job_at. apply fire_return. exact Hb.
  - destruct (IH sh l1 (Entry (caught e) (code e) (Running (next sh))) l2
                (effect sh) (tr ++ [Ran (List.length l1)]) eq_refl)
      as [r [sh' [tr' Hj]]].
    exists r, sh', tr'.
    eapply jobs_step; [| exact Hj].
    apply job_at. eapply fire_await. exact Hb.
Qed.

(** An entry whose source is settled is called and runs to its return. *)
Lemma waiting_settles : forall l1 e l2 sh tr,
  forallb (@settled State R) l1 = true ->
  chained e = Waiting ->
  caught e <> Rejected ->
  exists r sh' tr',
    jobs (Machine (l1 ++ e :: l2) sh tr)
         (Machine (l1 ++ Entry Fulfilled (code e) (Settled r) :: l2) sh' tr').
Proof.
  intros l1 e l2 sh tr Hl1 Hw Hc.
  assert (Hcall : exists tr0,
            jobs (Machine (l1 ++ e :: l2) sh tr)
                 (Machine (l1 ++ Entry Fulfilled (code e) (Running (code e))
                              :: l2) sh tr0)).
  { destruct (caught e) eqn:Ec; [| | congruence].
    - eexists. eapply jobs_step.
      + apply job_at. apply fire_catch; [exact Ec |].
        apply settled_tail_status. exact Hl1.
      + eapply jobs_step; [| apply jobs_refl].
        apply job_at.
        apply (@fire_call State R _ _ _
                 (Entry Fulfilled (code e) (chained e)) eq_refl Hw).
    - eexists. eapply jobs_step; [| apply jobs_refl].
      pose proof (@fire_call State R (tail_status l1) (List.length l1) sh e
                    Ec Hw) as Hf.
      rewrite Ec in Hf. apply job_at. exact Hf. }
  destruct Hcall as [tr0 Hcall].
  destruct (running_settles (code e) l1
              (Entry Fulfilled (code e) (Running (code e))) l2 sh tr0 eq_refl)
    as [r [sh' [tr' Hrun]]].
  exists r, sh', tr'. eapply jobs_trans; eassumption.
Qed.

(** Idle entries behind settled ones are all run, in turn. *)
Lemma idle_drains : forall l2 l1 sh tr,
  Forall (@idle State R) l2 ->
  forallb (@settled State R) l1 = true ->
  exists m',
    jobs (Machine (l1 ++ l2) sh tr) m'
    /\ forallb (@settled State R) (entries m') = true.
Proof.
  induction l2 as [|e l2 IH]; intros l1 sh tr Hidle Hl1.
  - exists (Machine (l1 ++ []) sh tr). split; [apply jobs_refl |].
    simpl. rewrite app_nil_r. exact Hl1.
  - inversion Hidle as [|? ? [Hc Hw] Hidle']; subst.
    destruct (waiting_settles l1 e l2 sh tr Hl1 Hw) as [r [sh' [tr' Hj]]];
      [rewrite Hc; discriminate |].
    destruct (IH (l1 ++ [Entry Fulfilled (code e) (Settled r)]) sh' tr' Hidle')
      as [m' [Hj' Hall]].
    { rewrite forallb_app, Hl1. reflexivity. }
    exists m'. split; [| exact Hall].
    eapply jobs_trans; [exact Hj |].
    rewrite <- app_assoc in Hj'. exact Hj'.
Qed.

Lemma chain_drains : forall i s es sh tr,
  chain i s es sh tr ->
  forall l0 tr0, forallb (@settled State R) l0 = true ->
  exists m',
    jobs (Machine (l0 ++ es) sh tr0) m'
    /\ forallb (@settled State R) (entries m') = true.
Proof.
  intros i s es sh tr H. induction H; intros l0 tr0 Hl0.
  - apply idle_drains; [constructor | exact Hl0].
  - destruct (IHchain (l0 ++ [e]) tr0) as [m' [Hj Hall]].
    { rewrite forallb_app, Hl0. simpl. unfold settled.
      match goal with H : chained e = Settled _ |- _ => rewrite H end.
      reflexivity. }
    exists m'. split; [| exact Hall].
    rewrite <- app_assoc in Hj. exact Hj.
  - match goal with H : chained e = Running _ |- _ =>
      destruct (running_settles b l0 e es sh tr0 H) as [r0 [sh' [tr' Hj]]]
    end.
    destruct (idle_drains es
                (l0 ++ [Entry (caught e) (code e) (Settled r0)]) sh' tr')
      as [m' [Hj' Hall]]; [assumption | |].
    { rewrite forallb_app, Hl0. reflexivity. }
    exists m'. split; [| exact Hall].
    eapply jobs_trans; [exact Hj |].
    rewrite <- app_assoc in Hj'. exact Hj'.
  - match goal with Hw : chained e = Waiting, Hc : caught e <> Rejected |- _ =>
      destruct (waiting_settles l0 e es s tr0 Hl0 Hw Hc) as [r0 [sh' [tr' Hj]]]
    end.
    destruct (idle_drains es
                (l0 ++ [Entry Fulfilled (code e) (Settled r0)]) sh' tr')
      as [m' [Hj' Hall]]; [assumption | |].
    { rewrite forallb_app, Hl0. reflexivity. }
    exists m'. split; [| exact Hall].
    eapply jobs_trans; [exact Hj |].
    rewrite <- app_assoc in Hj'. exact Hj'.
Qed.

Lemma chain_all_results : forall i s es sh tr,
  chain i s es sh tr ->
  forallb (@settled State R) es = true ->
  map (@result_of State R) es
  = map Some (snd (run_serial (map (@code State R) es) s)).
Proof.
  intros i s es sh tr H. induction H; intros Hall; simpl in *.
  - reflexivity.
  - apply andb_true_iff in Hall. destruct Hall as [_ Hall].
    match goal with H : run_body _ _ = _ |- _ => rewrite H end.
    destruct (run_serial (map (@code State R) es) s1) as [s3 rs] eqn:Ers.
    simpl. apply IHchain in Hall. rewrite ?Ers in Hall. simpl in Hall.
    rewrite <- Hall. unfold result_of at 1.
    match goal with H : chained e = Settled _ |- _ => rewrite H end.
    reflexivity.
  - unfold settled in Hall at 1.
    match goal with H : chained e = Running _ |- _ => rewrite H in Hall end.
    discriminate.
  - unfold settled in Hall at 1.
    match goal with H : chained e = Waiting |- _ => rewrite H in Hall end.
    discriminate.
Qed.

End QueueFacts.

(** ** Further properties of the operations *)

Lemma jsonify_num_idem : forall f, jsonify (jsonify_num f) = jsonify_num f.
Proof.
  intros f. unfold jsonify_num.
  destruct (PrimFloat.is_finite f) eqn:Hf; [| reflexivity].
  destruct (PrimFloat.is_zero f) eqn:Hz; simpl; unfold jsonify_num.
  - reflexivity.
  - rewrite Hf, Hz. reflexivity.
Qed.

Lemma jsonify_props_cons : forall k v ps,
  v <> VUndef ->
  jsonify_props ((k, v) :: ps) = (k, jsonify v) :: jsonify_props ps.
Proof.
  intros k v ps Hv. destruct v; try reflexivity. contradiction.
Qed.

(** Serializing twice is serializing once. *)
Lemma jsonify_idem : forall v, jsonify (jsonify v) = jsonify v.
Proof.
  induction v using value_rect'; try reflexivity.
  - apply jsonify_num_idem.
  - simpl. f_equal. rewrite map_map. apply map_ext_in.
    intros x Hx. rewrite Forall_forall in H. apply H. exact Hx.
  - change (jsonify (VObj props)) with (VObj (jsonify_props props)).
    change (jsonify (VObj (jsonify_props props)))
      with (VObj (jsonify_props (jsonify_props props))).
    f_equal. induction H as [|[k v] ps Hv _ IH]; [reflexivity |].
    simpl in Hv. destruct (value_undef_dec v) as [-> | Hd].
    + exact IH.
    + rewrite (jsonify_props_cons k v ps Hd).
      rewrite jsonify_props_cons by apply jsonify_defined.
      rewrite Hv, IH. reflexivity.
Qed.

(** X1. [clear] without its confirmation throws and touches nothing; with
    it, the document is emptied: [all] then returns an empty map. *)
Theorem clear_needs_confirmation :
  forall (file : string) (w : world),
    files w file <> Faulty ->
    clear file false w = (Throw clearConfirm, w)
    /\ exists w',
         clear file true w = (Ok true, w')
         /\ fst (all file w') = Ok (VObj []).
Proof.
  intros file w Hf. split; [reflexivity |].
  eexists. split.
  - unfold clear, bind. rewrite write_object; [reflexivity | reflexivity | exact Hf].
  - unfold all. rewrite (read_doc file _ (VObj [])) by apply upd_same.
    reflexivity.
Qed.

Lemma clear_needs_confirmation_witness :
  clear "db.json" false (World (fun _ => Malformed "{oops") [])
  = (Throw clearConfirm, World (fun _ => Malformed "{oops") []).
Proof.
  apply (proj1 (clear_needs_confirmation "db.json"
                  (World (fun _ => Malformed "{oops") [])
                  ltac:(discriminate))).
Defined.

(** X2. [push] on a valid path of plain names where nothing is found
    returns the one-element sequence of the value, and writes the document
    in which the path leads to that sequence. *)
Theorem push_on_absent_path :
  forall (file : string) (separator : ascii) (id : string) (w : world)
         (data v : value),
    files w file = Doc data ->
    is_object data = true ->
    plain_path separator id = true ->
    _find separator data id = Ok VNull ->
    v <> VUndef ->
    exists data',
      _findAndSet separator data id (VArr [v] []) = Ok data'
      /\ node_at data' (split separator id) = VArr [v] []
      /\ push file separator id v w =
           (Ok (VArr [v] []),
            World (upd (files w) file (Doc (jsonify data')))
                  ((log w ++ [ReadFile file]) ++ [WriteFile file])).
Proof.
  intros file separator id w data v Hdoc Hobj _ Hfind Hv.
  assert (Hval : _validateID separator id = true).
  { unfold _find in Hfind.
    destruct (_validateID separator id); [reflexivity | discriminate]. }
  destruct (set_loop_shape (split separator id) data (VArr [v] [])
              (split_nonempty separator id) Hobj)
    as [data' [Hset [Hobj' [Hnode _]]]].
  assert (Hfs : _findAndSet separator data id (VArr [v] []) = Ok data').
  { unfold _findAndSet. rewrite Hval. exact Hset. }
  exists data'. split; [exact Hfs |]. split; [exact Hnode |].
  unfold push. rewrite (valid_nonempty _ _ Hval).
  destruct v; try contradiction;
    unfold bind; rewrite (read_doc _ _ _ Hdoc); unfold lift;
    rewrite Hfind, Hfs;
    (rewrite write_object; [reflexivity | exact Hobj' |
                            simpl; rewrite Hdoc; discriminate]).
Qed.

Lemma push_on_absent_path_witness :
  exists data',
    fst (push "db.json" "."%char "logs" (VStr "init")
           (World (upd (fun _ => Missing) "db.json" (Doc (VObj []))) []))
    = Ok (VArr [VStr "init"] [])
    /\ _findAndSet "."%char (VObj []) "logs" (VArr [VStr "init"] []) = Ok data'
    /\ node_at data' ["logs"] = VArr [VStr "init"] [].
Proof.
  destruct (push_on_absent_path "db.json" "."%char "logs"
              (World (upd (fun _ => Missing) "db.json" (Doc (VObj []))) [])
              (VObj []) (VStr "init") eq_refl eq_refl eq_refl eq_refl
              ltac:(discriminate)) as [data' [H1 [H2 H3]]].
  exists data'. rewrite H3. split; [reflexivity |].
  split; [exact H1 | exact H2].
Defined.

(** X3. [backup] to another file, then [loadBackup] from it, whatever the
    primary file has become in between: the primary file holds the
    document of the time of the backup, as JSON represents it. *)
Theorem backup_then_loadBackup :
  forall (file filePath : string) (w w' : world) (data : value),
    files w file = Doc data ->
    is_object data = true ->
    filePath <> "" ->
    endsWith_json filePath = true ->
    filePath <> file ->
    files w filePath <> Faulty ->
    files w' filePath = files (snd (backup file filePath w)) filePath ->
    files w' file <> Faulty ->
    fst (backup file filePath w) = Ok true
    /\ files (snd (backup file filePath w)) file = Doc data
    /\ fst (loadBackup file filePath w') = Ok true
    /\ files (snd (loadBackup file filePath w')) file = Doc (jsonify data).
Proof.
  intros file filePath w w' data Hdoc Hobj Hne Hjson Hdiff Hbf Hkeep Hpf.
  apply String.eqb_neq in Hne.
  assert (Hb : backup file filePath w =
               (Ok true,
                World (upd (files w) filePath (Doc (jsonify data)))
                      ((log w ++ [ReadFile file]) ++ [WriteFile filePath]))).
  { unfold backup. rewrite Hne, Hjson. simpl.
    unfold bind. rewrite (read_doc _ _ _ Hdoc). unfold write_json. simpl.
    destruct data; try discriminate;
      destruct (files w filePath); try reflexivity; contradiction. }
  rewrite Hb in *. simpl in *.
  split; [reflexivity |]. split.
  - unfold upd. apply String.eqb_neq in Hdiff.
    rewrite String.eqb_sym, Hdiff. exact Hdoc.
  - rewrite upd_same in Hkeep.
    unfold loadBackup. rewrite Hne. unfold read_parse. rewrite Hkeep.
    unfold bind.
    rewrite write_object;
      [| apply jsonify_object; exact Hobj | simpl; exact Hpf].
    simpl. rewrite upd_same, jsonify_idem. split; reflexivity.
Qed.

Lemma backup_then_loadBackup_witness :
  let w := World (upd (fun _ => Missing) "db.json"
                      (Doc (VObj [("a", VNum 1)]))) [] in
  let w' := snd (clear "db.json" true (snd (backup "db.json" "b.json" w))) in
  files (snd (loadBackup "db.json" "b.json" w')) "db.json"
  = Doc (VObj [("a", VNum 1)]).
Proof.
  intros w w'.
  apply (backup_then_loadBackup "db.json" "b.json" w w' (VObj [("a", VNum 1)]));
    try reflexivity; discriminate.
Defined.

(** ** The tests of the repository

    The scenario of test.js, with the separator ["_"], run on the
    embedding from an absent file. *)

Section Tests.

Let db := "test-db.json".
Let sep : ascii := "_"%char.
Let w0 : world := World (fun _ => Missing) [].
Let user : value :=
  VObj [("id", VNum 1); ("type", VStr "admin");
        ("settings", VObj [("theme", VStr "dark")])].

Let w1 := snd (set db sep "user_profile_name" (VStr "nopeion") w0).
Let w2 := snd (set db sep "user_1" user w1).
Let w3 := snd (set db sep "counter" (VNum 10) w2).
Let w4 := snd (add db sep "counter" (VNum 5) w3).
Let w5 := snd (add db sep "new_counter" (VNum 1) w4).
Let w6 := snd (subtract db sep "counter" (VNum 3) w5).
Let w7 := snd (set db sep "logs" (VArr [VStr "init"] []) w6).
Let w8 := snd (push db sep "logs" (VStr "test_run") w7).
Let w9 := snd (set db sep "temp" (VStr "deleteme") w8).
Let w10 := snd (delete db sep "temp" w9).
Let w11 := snd (set db sep "user_1_settings_lang" (VStr "en") w10).
Let w12 := snd (delete db sep "user_1_settings_lang" w11).
Let w13 := snd (backup db "test-db-backup.json" w12).
Let w14 := snd (set db sep "user_1" (VObj [("id", VNum 999)]) w13).
Let w15 := snd (loadBackup db "test-db-backup.json" w14).
Let w16 := snd (clear db true w15).

Example test_set_get :
  fst (get db sep "user_profile_name" w1) = Ok (VStr "nopeion").
Proof. reflexivity. Qed.

Example test_get_nested :
  fst (get db sep "user_1" w2) = Ok user
  /\ fst (get db sep "user_1_settings_theme" w2) = Ok (VStr "dark")
  /\ fst (get db sep "user_1_id" w2) = Ok (VNum 1).
Proof. repeat split. Qed.

Example test_add_subtract :
  fst (add db sep "counter" (VNum 5) w3) = Ok (VNum 15)
  /\ fst (add db sep "new_counter" (VNum 1) w4) = Ok (VNum 1)
  /\ fst (subtract db sep "counter" (VNum 3) w5) = Ok (VNum 12).
Proof. vm_compute. repeat split. Qed.

Example test_has :
  fst (has db sep "user_1" w6) = Ok true
  /\ fst (has db sep "fake_key" w6) = Ok false.
Proof. vm_compute. repeat split. Qed.

Example test_push :
  fst (push db sep "logs" (VStr "test_run") w7)
  = Ok (VArr [VStr "init"; VStr "test_run"] []).
Proof. vm_compute. reflexivity. Qed.

Example test_delete :
  fst (delete db sep "temp" w9) = Ok true
  /\ fst (get db sep "temp" w10) = Ok VNull
  /\ fst (get db sep "user_1_settings_lang" w11) = Ok (VStr "en")
  /\ fst (delete db sep "user_1_settings_lang" w11) = Ok true
  /\ fst (get db sep "user_1_settings_lang" w12) = Ok VNull
  /\ fst (get db sep "user_1_settings" w12)
     = Ok (VObj [("theme", VStr "dark")]).
Proof. vm_compute. repeat split. Qed.

Example test_all :
  exists data,
    fst (all db w12) = Ok data
    /\ node_at data ["user"; "1"; "id"] = VNum 1
    /\ node_at data ["counter"] = VNum 12
    /\ node_at data ["new"; "counter"] = VNum 1
    /\ node_at data ["user"; "profile"; "name"] = VStr "nopeion".
Proof. eexists. vm_compute. repeat split. Qed.

Example test_backup_loadBackup :
  fst (backup db "test-db-backup.json" w12) = Ok true
  /\ fst (loadBackup db "test-db-backup.json" w14) = Ok true
  /\ fst (get db sep "user_1_id" w14) = Ok (VNum 999)
  /\ fst (get db sep "user_1_id" w15) = Ok (VNum 1).
Proof. vm_compute. repeat split. Qed.

Example test_clear :
  clear db false w15 = (Throw clearConfirm, w15)
  /\ fst (clear db true w15) = Ok true
  /\ fst (all db w16) = Ok (VObj []).
Proof. vm_compute. repeat split. Qed.

End Tests.

(** ** Key paths and their segments *)

Section Segments.

Variable separator : ascii.

Let nonempty (part : string) : bool := negb (String.eqb part "").

Lemma split_cons_other : forall c id,
  Ascii.eqb c separator = false ->
  split separator (String c id) =
  String c (hd EmptyString (split separator id)) :: tl (split separator id).
Proof.
  intros c id H. simpl. rewrite H.
  destruct (split separator id); reflexivity.
Qed.

(** What [_validateID] looks for beyond the first character, in terms of
    the segments. *)
Lemma edges_and_repeats : forall id,
  (forall c, Ascii.eqb c separator = false ->
     (endsWith_sep separator (String c id)
      || includes_sep_sep separator (String c id))%bool
     = negb (forallb nonempty (tl (split separator id))))
  /\ (endsWith_sep separator (String separator id)
      || includes_sep_sep separator (String separator id))%bool
     = negb (forallb nonempty (split separator id)).
Proof.
  induction id as [|d id [IH1 IH2]].
  - split.
    + intros c Hc. simpl. rewrite Hc. reflexivity.
    + simpl. rewrite Ascii.eqb_refl. reflexivity.
  - destruct (Ascii.eqb d separator) eqn:Hd.
    + apply Ascii.eqb_eq in Hd. subst d. split.
      * intros c Hc.
        change (endsWith_sep separator (String c (String separator id)))
          with (endsWith_sep separator (String separator id)).
        change (includes_sep_sep separator (String c (String separator id)))
          with ((Ascii.eqb c separator && Ascii.eqb separator separator)
                || includes_sep_sep separator (String separator id))%bool.
        rewrite Hc. cbn [andb orb]. rewrite IH2.
        simpl split. rewrite Ascii.eqb_refl. reflexivity.
      * change (includes_sep_sep separator
                  (String separator (String separator id)))
          with ((Ascii.eqb separator separator
                 && Ascii.eqb separator separator)
                || includes_sep_sep separator (String separator id))%bool.
        rewrite Ascii.eqb_refl. cbn [andb orb]. rewrite orb_true_r.
        simpl split. rewrite Ascii.eqb_refl. reflexivity.
    + split.
      * intros c Hc.
        change (endsWith_sep separator (String c (String d id)))
          with (endsWith_sep separator (String d id)).
        change (includes_sep_sep separator (String c (String d id)))
          with ((Ascii.eqb c separator && Ascii.eqb d separator)
                || includes_sep_sep separator (String d id))%bool.
        rewrite Hc. cbn [andb orb]. rewrite (IH1 d Hd).
        rewrite (split_cons_other d id Hd). reflexivity.
      * change (endsWith_sep separator (String separator (String d id)))
          with (endsWith_sep separator (String d id)).
        change (includes_sep_sep separator (String separator (String d id)))
          with ((Ascii.eqb separator separator && Ascii.eqb d separator)
                || includes_sep_sep separator (String d id))%bool.
        rewrite Hd, andb_false_r. cbn [andb orb]. rewrite (IH1 d Hd).
        rewrite (split_cons_other d id Hd). reflexivity.
Qed.

Lemma join_cons_other : forall c part parts,
  join separator (String c part :: parts)
  = String c (join separator (part :: parts)).
Proof.
  intros c part [|p parts]; reflexivity.
Qed.

End Segments.

Lemma validate_by_segments : forall separator id,
  _validateID separator id
  = forallb (fun part => negb (String.eqb part "")) (split separator id).
Proof.
  intros separator id.
  unfold _validateID. destruct id as [|c id]; [reflexivity |].
  change (String.eqb (String c id) "") with false.
  change (startsWith_sep separator (String c id))
    with (Ascii.eqb c separator).
  destruct (Ascii.eqb c separator) eqn:Hc.
  - simpl split. rewrite Hc. reflexivity.
  - cbn [orb].
    rewrite (proj1 (edges_and_repeats separator id) c Hc).
    rewrite negb_involutive, (split_cons_other separator c id Hc).
    reflexivity.
Qed.

(** X4. A key path passes [_validateID] exactly when none of the segments
    that [split] cuts it into is empty.  The segments hold no separator,
    and joined by the separator they give the key path back. *)
Theorem valid_iff_segments :
  forall (separator : ascii) (id : string),
    _validateID separator id
    = forallb (fun part => negb (String.eqb part "")) (split separator id)
    /\ Forall (fun part => has_sep separator part = false)
              (split separator id)
    /\ join separator (split separator id) = id.
Proof.
  intros separator id. split; [| split].
  - apply validate_by_segments.
  - induction id as [|c id IH]; simpl.
    + repeat constructor.
    + destruct (Ascii.eqb c separator) eqn:Hc.
      * constructor; [reflexivity | exact IH].
      * destruct (split separator id) as [|part parts];
          inversion IH; subst; constructor; simpl; rewrite ?Hc; auto.
  - induction id as [|c id IH]; [reflexivity |].
    destruct (Ascii.eqb c separator) eqn:Hc.
    + simpl split. rewrite Hc. apply Ascii.eqb_eq in Hc. subst c.
      pose proof (split_nonempty separator id) as Hn.
      destruct (split separator id) as [|part parts] eqn:E; [contradiction |].
      change (join separator (EmptyString :: part :: parts))
        with (String separator (join separator (part :: parts))).
      rewrite IH. reflexivity.
    + rewrite (split_cons_other separator c id Hc).
      pose proof (split_nonempty separator id) as Hn.
      destruct (split separator id) as [|part parts] eqn:E; [contradiction |].
      simpl hd. simpl tl. rewrite join_cons_other, IH. reflexivity.
Qed.

(** ** Persistence *)

(** X5. What [_read] returns after [_write] is the data as JSON represents
    it; the read does not touch the file, and writing back what was read
    leaves every file as it is. *)
Theorem write_then_read :
  forall (file : string) (w : world) (data : value),
    data <> VUndef ->
    files w file <> Faulty ->
    exists w1 w2 w3,
      _write file data w = (Ok tt, w1)
      /\ _read file w1 = (Ok (jsonify data), w2)
      /\ files w2 = files w1
      /\ _write file (jsonify data) w2 = (Ok tt, w3)
      /\ forall path, files w3 path = files w1 path.
Proof.
  intros file w data Hd Hf.
  assert (W : forall (w0 : world) (d : value),
            d <> VUndef -> files w0 file <> Faulty ->
            _write file d w0 =
              (Ok tt, World (upd (files w0) file (Doc (jsonify d)))
                            (log w0 ++ [WriteFile file]))).
  { intros w0 d Hd0 Hf0. unfold _write, write_json.
    destruct d; try contradiction;
      destruct (files w0 file); try reflexivity; contradiction. }
  do 3 eexists. split; [apply W; assumption |].
  split; [apply read_doc; apply upd_same |].
  split; [reflexivity |].
  split.
  - apply W; [apply jsonify_defined |]. simpl. rewrite upd_same. discriminate.
  - intros path. simpl. rewrite jsonify_idem. unfold upd.
    destruct (String.eqb path file); reflexivity.
Qed.

Lemma write_then_read_witness :
  exists w1 w2,
    _write "db.json" (VObj [("n", VNum PrimFloat.nan)])
           (World (fun _ => Missing) []) = (Ok tt, w1)
    /\ _read "db.json" w1 = (Ok (VObj [("n", VNull)]), w2).
Proof.
  destruct (write_then_read "db.json" (World (fun _ => Missing) [])
              (VObj [("n", VNum PrimFloat.nan)])
              ltac:(discriminate) ltac:(discriminate))
    as [w1 [w2 [w3 [H1 [H2 _]]]]].
  exists w1, w2. split; [exact H1 | exact H2].
Defined.

(** X6. On a file that holds a document, an operation that throws leaves
    the files as they were: [set], [add], [subtract], [push], [delete],
    [get], [has] and [clear] either succeed or change nothing. *)
Theorem failure_keeps_files :
  forall (file : string) (separator : ascii) (id : string) (v : value)
         (confirm : bool) (w : world) (data : value),
    files w file = Doc data ->
    (forall e w', set file separator id v w = (Throw e, w') ->
                  files w' = files w)
    /\ (forall e w', add file separator id v w = (Throw e, w') ->
                     files w' = files w)
    /\ (forall e w', subtract file separator id v w = (Throw e, w') ->
                     files w' = files w)
    /\ (forall e w', push file separator id v w = (Throw e, w') ->
                     files w' = files w)
    /\ (forall e w', delete file separator id w = (Throw e, w') ->
                     files w' = files w)
    /\ (forall e w', get file separator id w = (Throw e, w') ->
                     files w' = files w)
    /\ (forall e w', has file separator id w = (Throw e, w') ->
                     files w' = files w)
    /\ (forall e w', clear file confirm w = (Throw e, w') ->
                     files w' = files w).
Proof.
  intros file separator id v confirm w data Hdoc.
  assert (W : forall (d : value) (l : list io_event) e w',
            write_json file d (World (files w) l) = (Throw e, w') ->
            files w' = files w).
  { intros d l e w' H. unfold write_json in H. simpl in H. rewrite Hdoc in H.
    destruct d; inversion H; reflexivity. }
  assert (WR : forall (A : Type) (d : value) (l : list io_event) (a : A) e w',
            (let (o, w1) := write_json file d (World (files w) l) in
             match o with
             | Ok _ => (Ok a, w1)
             | Throw e0 => (Throw e0, w1)
             end) = (Throw e, w') ->
            files w' = files w).
  { intros A d l a e w' H.
    destruct (write_json file d (World (files w) l)) as [[u | e0] w1] eqn:E;
      [discriminate |].
    injection H as _ <-. eapply W. exact E. }
  assert (ADD : forall x e w', add file separator id x w = (Throw e, w') ->
                               files w' = files w).
  { intros x e w' H. unfold add in H.
    destruct (String.eqb id ""); [inversion H; reflexivity |].
    destruct x; try (inversion H; reflexivity).
    unfold bind in H. rewrite (read_doc _ _ _ Hdoc) in H. unfold lift in H.
    destruct (_find separator data id) as [cur | e0];
      [| inversion H; reflexivity].
    destruct cur; try (inversion H; reflexivity);
      (match type of H with
       | context [_findAndSet ?s ?d ?i ?y] =>
           destruct (_findAndSet s d i y) as [data' | e1];
           [| inversion H; reflexivity]
       end);
      unfold _write in H; eapply WR; exact H. }
  repeat split.
  - intros e w' H. unfold set in H.
    destruct (String.eqb id ""); [inversion H; reflexivity |].
    destruct v; try (inversion H; reflexivity);
      unfold bind in H; rewrite (read_doc _ _ _ Hdoc) in H; unfold lift in H;
      (match type of H with
       | context [_findAndSet ?s ?d ?i ?y] =>
           destruct (_findAndSet s d i y) as [data' | e1];
           [| inversion H; reflexivity]
       end);
      unfold _write in H; eapply WR; exact H.
  - exact (ADD v).
  - intros e w' H. unfold subtract in H.
    destruct v; try (inversion H; reflexivity). eapply ADD. exact H.
  - intros e w' H. unfold push in H.
    destruct (String.eqb id ""); [inversion H; reflexivity |].
    destruct v; try (inversion H; reflexivity);
      unfold bind in H; rewrite (read_doc _ _ _ Hdoc) in H; unfold lift in H;
      (destruct (_find separator data id) as [found | e0];
       [| inversion H; reflexivity]);
      destruct found; try (inversion H; reflexivity);
      (match type of H with
       | context [_findAndSet ?s ?d ?i ?y] =>
           destruct (_findAndSet s d i y) as [data' | e1];
           [| inversion H; reflexivity]
       end);
      unfold _write in H; eapply WR; exact H.
  - intros e w' H. unfold delete in H.
    destruct (String.eqb id ""); [inversion H; reflexivity |].
    unfold bind in H. rewrite (read_doc _ _ _ Hdoc) in H.
    destruct (delete_loop data (split separator id)) as [data' |];
      [| inversion H].
    unfold _write in H. eapply WR. exact H.
  - intros e w' H. unfold get in H.
    destruct (String.eqb id ""); [inversion H; reflexivity |].
    unfold bind in H. rewrite (read_doc _ _ _ Hdoc) in H. unfold lift in H.
    inversion H. reflexivity.
  - intros e w' H. unfold has in H.
    destruct (String.eqb id ""); [inversion H; reflexivity |].
    unfold bind in H. rewrite (read_doc _ _ _ Hdoc) in H. unfold lift in H.
    destruct (_find separator data id); inversion H; reflexivity.
  - intros e w' H. unfold clear in H.
    destruct confirm; [| inversion H; reflexivity].
    unfold bind, _write, write_json in H. simpl in H. rewrite Hdoc in H.
    discriminate.
Qed.

Lemma failure_keeps_files_witness :
  let w := World (upd (fun _ => Missing) "db.json"
                      (Doc (VObj [("logs", VStr "none")]))) [] in
  files (snd (push "db.json" "."%char "logs" (VNum 1) w)) = files w.
Proof.
  intros w.
  refine (proj1 (proj2 (proj2 (proj2
    (failure_keeps_files "db.json" "."%char "logs" (VNum 1) true w
       (VObj [("logs", VStr "none")]) eq_refl)))) mustBeArray _ _).
  reflexivity.
Defined.

(** ** Presence *)

(** X7. [has] answers [true] exactly when [get] returns something other
    than [null], and acts on the world as [get] does: a stored [0],
    [false] or empty string is present, a stored [null] is not. *)
Theorem has_iff_get :
  forall (file : string) (separator : ascii) (id : string) (w : world),
    has file separator id w =
    match get file separator id w with
    | (Ok VNull, w') => (Ok false, w')
    | (Ok _, w') => (Ok true, w')
    | (Throw e, w') => (Throw e, w')
    end.
Proof.
  intros file separator id w. unfold has, get.
  destruct (String.eqb id ""); [reflexivity |].
  unfold bind. destruct (_read file w) as [[data | e] w1]; [| reflexivity].
  unfold lift. destruct (_find separator data id) as [[] | e]; reflexivity.
Qed.

(** ** Assignments, one after the other *)

(** An assignment of a defined value through a path that passes no array,
    as [set], [add] and [push] perform it: the document is written, and in
    the file the path leads to the value as JSON represents it. *)
Lemma assign_runs :
  forall file separator id (w : world) data x,
    _validateID separator id = true ->
    files w file = Doc data ->
    is_object data = true ->
    no_array_on data (split separator id) = true ->
    x <> VUndef ->
    exists data',
      _findAndSet separator data id x = Ok data'
      /\ _write file data' (World (files w) (log w ++ [ReadFile file]))
         = (Ok tt, World (upd (files w) file (Doc (jsonify data')))
                         ((log w ++ [ReadFile file]) ++ [WriteFile file]))
      /\ is_object (jsonify data') = true
      /\ no_array_on (jsonify data') (split separator id) = true
      /\ _find separator (jsonify data') id = Ok (jsonify x).
Proof.
  intros file separator id w data x Hv Hdoc Hobj Hna Hx.
  destruct (set_loop_jsonify (split separator id) data x
              (split_nonempty separator id) Hobj Hna Hx)
    as [data' [Hset [Hobj' [Hnode Hna']]]].
  exists data'. split; [| split; [| split; [| split]]].
  - unfold _findAndSet. rewrite Hv. exact Hset.
  - rewrite write_object; [reflexivity | exact Hobj' |].
    simpl. rewrite Hdoc. discriminate.
  - apply jsonify_object. exact Hobj'.
  - exact Hna'.
  - unfold _find. rewrite Hv, find_loop_node_at, Hnode.
    pose proof (jsonify_defined x) as Hj.
    destruct (jsonify x); try reflexivity. contradiction.
Qed.

Lemma set_runs :
  forall file separator id (w : world) data x,
    _validateID separator id = true ->
    files w file = Doc data ->
    is_object data = true ->
    no_array_on data (split separator id) = true ->
    x <> VUndef ->
    exists data',
      set file separator id x w
      = (Ok x, World (upd (files w) file (Doc (jsonify data')))
                     ((log w ++ [ReadFile file]) ++ [WriteFile file]))
      /\ is_object (jsonify data') = true
      /\ no_array_on (jsonify data') (split separator id) = true
      /\ _find separator (jsonify data') id = Ok (jsonify x).
Proof.
  intros file separator id w data x Hv Hdoc Hobj Hna Hx.
  destruct (assign_runs file separator id w data x Hv Hdoc Hobj Hna Hx)
    as [data' [Hfs [Hw rest]]].
  exists data'. split; [| exact rest].
  unfold set. rewrite (valid_nonempty _ _ Hv).
  destruct x; try contradiction;
    unfold bind; rewrite (read_doc _ _ _ Hdoc); unfold lift;
    rewrite Hfs, Hw; reflexivity.
Qed.

(** X8. The last write wins: after [set] of a value and then of another
    at the same path, [get] returns the second, as JSON represents it. *)
Theorem set_overwrites :
  forall (file : string) (separator : ascii) (id : string) (w : world)
         (data v1 v2 : value),
    _validateID separator id = true ->
    plain_path separator id = true ->
    files w file = Doc data ->
    is_object data = true ->
    no_array_on data (split separator id) = true ->
    v1 <> VUndef ->
    v2 <> VUndef ->
    exists w1 w2,
      set file separator id v1 w = (Ok v1, w1)
      /\ set file separator id v2 w1 = (Ok v2, w2)
      /\ fst (get file separator id w2) = Ok (jsonify v2).
Proof.
  intros file separator id w data v1 v2 Hv _ Hdoc Hobj Hna H1 H2.
  destruct (set_runs file separator id w data v1 Hv Hdoc Hobj Hna H1)
    as [d1 [Hs1 [Ho1 [Hn1 _]]]].
  match type of Hs1 with
  | _ = (_, ?w1) =>
      destruct (set_runs file separator id w1 (jsonify d1) v2 Hv
                  (upd_same _ _ _) Ho1 Hn1 H2)
        as [d2 [Hs2 [_ [_ Hf2]]]]
  end.
  do 2 eexists. split; [exact Hs1 |]. split; [exact Hs2 |].
  apply get_reads; assumption.
Qed.

Lemma set_overwrites_witness :
  exists w1 w2,
    set "db.json" "."%char "user.name" (VStr "a")
        (World (upd (fun _ => Missing) "db.json" (Doc (VObj []))) [])
    = (Ok (VStr "a"), w1)
    /\ set "db.json" "."%char "user.name" (VStr "b") w1 = (Ok (VStr "b"), w2)
    /\ fst (get "db.json" "."%char "user.name" w2) = Ok (VStr "b").
Proof.
  exact (set_overwrites "db.json" "."%char "user.name"
           (World (upd (fun _ => Missing) "db.json" (Doc (VObj []))) [])
           (VObj []) (VStr "a") (VStr "b")
           eq_refl eq_refl eq_refl eq_refl eq_refl
           ltac:(discriminate) ltac:(discriminate)).
Defined.

(** ** Sequences *)

(** X9. [push] on a path that leads to a sequence appends at its end:
    it returns the sequence with the value added last, and after a second
    [push], [get] returns the elements in their order, followed by the two
    values in the order of the calls, as JSON represents them. *)
Theorem push_appends :
  forall (file : string) (separator : ascii) (id : string) (w : world)
         (data x y : value) (elems : list value)
         (named : list (string * value)),
    _validateID separator id = true ->
    plain_path separator id = true ->
    files w file = Doc data ->
    is_object data = true ->
    no_array_on data (split separator id) = true ->
    _find separator data id = Ok (VArr elems named) ->
    x <> VUndef ->
    y <> VUndef ->
    exists w1 w2,
      push file separator id x w = (Ok (VArr (elems ++ [x]) named), w1)
      /\ push file separator id y w1
         = (Ok (VArr (map jsonify (elems ++ [x]) ++ [y]) []), w2)
      /\ fst (get file separator id w2)
         = Ok (VArr (map jsonify elems ++ [jsonify x; jsonify y]) []).
Proof.
  intros file separator id w data x y elems named
         Hv _ Hdoc Hobj Hna Hfind Hx Hy.
  assert (P : forall (w0 : world) d es nm z,
            files w0 file = Doc d ->
            is_object d = true ->
            no_array_on d (split separator id) = true ->
            _find separator d id = Ok (VArr es nm) ->
            z <> VUndef ->
            exists d',
              push file separator id z w0
              = (Ok (VArr (es ++ [z]) nm),
                 World (upd (files w0) file (Doc (jsonify d')))
                       ((log w0 ++ [ReadFile file]) ++ [WriteFile file]))
              /\ is_object (jsonify d') = true
              /\ no_array_on (jsonify d') (split separator id) = true
              /\ _find separator (jsonify d') id
                 = Ok (VArr (map jsonify (es ++ [z])) [])).
  { intros w0 d es nm z Hd Ho Hn Hf Hz.
    destruct (assign_runs file separator id w0 d (VArr (es ++ [z]) nm)
                Hv Hd Ho Hn ltac:(discriminate))
      as [d' [Hfs [Hw [Ho' [Hn' Hf']]]]].
    exists d'. split; [| auto].
    unfold push. rewrite (valid_nonempty _ _ Hv).
    destruct z; try contradiction;
      unfold bind; rewrite (read_doc _ _ _ Hd); unfold lift;
      rewrite Hf, Hfs, Hw; reflexivity. }
  destruct (P w data elems named x Hdoc Hobj Hna Hfind Hx)
    as [d1 [Hp1 [Ho1 [Hn1 Hf1]]]].
  match type of Hp1 with
  | _ = (_, ?w1) =>
      destruct (P w1 (jsonify d1) (map jsonify (elems ++ [x])) [] y
                  (upd_same _ _ _) Ho1 Hn1 Hf1 Hy)
        as [d2 [Hp2 [_ [_ Hf2]]]]
  end.
  do 2 eexists. split; [exact Hp1 |]. split; [exact Hp2 |].
  rewrite (get_reads file separator id _ _ _ _ Hv Hf2).
  rewrite !map_app, map_map. simpl. rewrite <- app_assoc. simpl.
  rewrite !jsonify_idem. do 3 f_equal.
  apply map_ext. intros a. apply jsonify_idem.
Qed.

Lemma push_appends_witness :
  exists w1,
    push "db.json" "_"%char "logs" (VStr "test_run")
         (World (upd (fun _ => Missing) "db.json"
                     (Doc (VObj [("logs", VArr [VStr "init"] [])]))) [])
    = (Ok (VArr [VStr "init"; VStr "test_run"] []), w1)
    /\ fst (get "db.json" "_"%char "logs"
              (snd (push "db.json" "_"%char "logs" (VStr "again") w1)))
       = Ok (VArr [VStr "init"; VStr "test_run"; VStr "again"] []).
Proof.
  destruct (push_appends "db.json" "_"%char "logs"
              (World (upd (fun _ => Missing) "db.json"
                          (Doc (VObj [("logs", VArr [VStr "init"] [])]))) [])
              (VObj [("logs", VArr [VStr "init"] [])])
              (VStr "test_run") (VStr "again") [VStr "init"] []
              eq_refl eq_refl eq_refl eq_refl eq_refl eq_refl
              ltac:(discriminate) ltac:(discriminate))
    as [w1 [w2 [H1 [H2 H3]]]].
  exists w1. split; [exact H1 |]. rewrite H2. exact H3.
Defined.

(** X10. When the value stored at the path is present and is not a
    sequence, [push] throws the type error after it has read the document
    and before any write. *)
Theorem push_on_non_array :
  forall (file : string) (separator : ascii) (id : string) (v : value)
         (w : world) (data cur : value),
    files w file = Doc data ->
    _find separator data id = Ok cur ->
    cur <> VNull ->
    cur <> VUndef ->
    is_array cur = false ->
    v <> VUndef ->
    push file separator id v w =
      (Throw mustBeArray, World (files w) (log w ++ [ReadFile file])).
Proof.
  intros file separator id v w data cur Hdoc Hfind Hnull Hundef Harr Hv.
  unfold push. rewrite (find_nonempty _ _ _ _ Hfind).
  destruct v; try contradiction;
    unfold bind, lift; rewrite (read_doc _ _ _ Hdoc), Hfind;
    destruct cur; try reflexivity; try contradiction; discriminate.
Qed.

Lemma push_on_non_array_witness :
  let w := World (upd (fun _ => Missing) "db.json"
                      (Doc (VObj [("logs", VStr "none")]))) [] in
  push "db.json" "."%char "logs" (VNum 1) w
  = (Throw mustBeArray, World (files w) [ReadFile "db.json"]).
Proof.
  intros w.
  apply (push_on_non_array "db.json" "."%char "logs" (VNum 1) w
           (VObj [("logs", VStr "none")]) (VStr "none"));
    try reflexivity; discriminate.
Defined.

(** ** What an assignment leaves alone *)

Lemma jsonify_props_length : forall ps,
  List.length (jsonify_props ps) <= List.length ps.
Proof.
  induction ps as [|[k v] ps IH]; [apply le_n |].
  destruct (value_undef_dec v) as [-> | Hv].
  - change (jsonify_props ((k, VUndef) :: ps)) with (jsonify_props ps).
    simpl. lia.
  - rewrite (jsonify_props_cons k v ps Hv). simpl. lia.
Qed.

(** In a document that serializes to itself, so does every member. *)
Lemma stable_member : forall ps k y,
  jsonify_props ps = ps ->
  assoc k ps = Some y ->
  jsonify y = y.
Proof.
  induction ps as [|[k' v'] ps IH]; intros k y Hs Ha; [discriminate |].
  destruct (value_undef_dec v') as [-> | Hv].
  - change (jsonify_props ((k', VUndef) :: ps)) with (jsonify_props ps) in Hs.
    pose proof (jsonify_props_length ps) as Hl. rewrite Hs in Hl.
    simpl in Hl. lia.
  - rewrite (jsonify_props_cons k' v' ps Hv) in Hs.
    injection Hs as Hv' Hps. simpl in Ha.
    destruct (String.eqb k k').
    + injection Ha as <-. exact Hv'.
    + eapply IH; eassumption.
Qed.

Lemma assoc_jsonify_other : forall a b x ps,
  a <> b ->
  assoc b (jsonify_props (assoc_set a x ps)) = assoc b (jsonify_props ps).
Proof.
  intros a b x ps Hab.
  assert (Hba : forall k, String.eqb a k = true -> String.eqb b k = false).
  { intros k Hk. apply String.eqb_eq in Hk. subst k.
    apply String.eqb_neq. auto. }
  induction ps as [|[k' v'] ps IH].
  - simpl assoc_set. destruct (value_undef_dec x) as [-> | Hx].
    + reflexivity.
    + rewrite (jsonify_props_cons a x [] Hx). cbn [assoc].
      rewrite (Hba a (String.eqb_refl a)). reflexivity.
  - simpl assoc_set. destruct (String.eqb a k') eqn:E.
    + specialize (Hba k' E).
      assert (L : assoc b (jsonify_props ((k', x) :: ps))
                  = assoc b (jsonify_props ps)).
      { destruct (value_undef_dec x) as [-> | Hx]; [reflexivity |].
        rewrite (jsonify_props_cons k' x ps Hx). cbn [assoc].
        rewrite Hba. reflexivity. }
      assert (Rr : assoc b (jsonify_props ((k', v') :: ps))
                   = assoc b (jsonify_props ps)).
      { destruct (value_undef_dec v') as [-> | Hv']; [reflexivity |].
        rewrite (jsonify_props_cons k' v' ps Hv'). cbn [assoc].
        rewrite Hba. reflexivity. }
      rewrite L, Rr. reflexivity.
    + destruct (value_undef_dec v') as [-> | Hv'].
      * change (jsonify_props ((k', VUndef) :: assoc_set a x ps))
          with (jsonify_props (assoc_set a x ps)).
        change (jsonify_props ((k', VUndef) :: ps)) with (jsonify_props ps).
        exact IH.
      * rewrite !jsonify_props_cons by assumption. cbn [assoc].
        destruct (String.eqb b k'); [reflexivity | exact IH].
Qed.

Lemma set_loop_object : forall parts current x current',
  parts <> [] ->
  set_loop current parts x = Ok current' ->
  is_object current' = true.
Proof.
  intros parts current x current' Hp Hs.
  destruct (is_object current) eqn:Ho.
  - destruct (set_loop_shape parts current x Hp Ho) as [d [Hd [Hod _]]].
    rewrite Hd in Hs. injection Hs as <-. exact Hod.
  - destruct parts as [|part [|p parts]]; [contradiction | |];
      simpl in Hs; unfold prop_set in Hs; rewrite Ho in Hs; discriminate.
Qed.

Lemma find_loop_scalar : forall parts current,
  is_object current = false -> parts <> [] -> find_loop current parts = VNull.
Proof.
  intros [|part parts] current H Hp; [contradiction |].
  simpl. rewrite H. reflexivity.
Qed.

Lemma find_loop_empty_map : forall parts,
  parts <> [] -> find_loop (VObj []) parts = VNull.
Proof.
  intros [|part [|p parts]] Hp; [contradiction | reflexivity | reflexivity].
Qed.

(** After an assignment through one path, a path that leaves it at some
    segment leads to what it led to before. *)
Lemma set_loop_frame : forall c current current' a p' b q' x,
  is_object current = true ->
  jsonify current = current ->
  no_array_on current (c ++ a :: p') = true ->
  a <> b ->
  set_loop current (c ++ a :: p') x = Ok current' ->
  find_loop (jsonify current') (c ++ b :: q')
  = find_loop current (c ++ b :: q').
Proof.
  induction c as [|k c IH];
    intros current current' a p' b q' x Hobj Hst Hna Hab Hset.
  - simpl app in *.
    assert (Harr : is_array current = false).
    { simpl in Hna. apply andb_true_iff in Hna. destruct Hna as [Hn _].
      apply negb_true_iff in Hn. exact Hn. }
    destruct current as [| | | | | |props]; try discriminate.
    change (jsonify (VObj props)) with (VObj (jsonify_props props)) in Hst.
    injection Hst as Hst.
    assert (Hc : exists y, current' = VObj (assoc_set a y props)).
    { destruct p' as [|r p'].
      - simpl in Hset. injection Hset as <-. eauto.
      - rewrite set_loop_cons in Hset by (auto; discriminate).
        destruct (set_loop (descend (prop_get (VObj props) a)) (r :: p') x);
          [| discriminate].
        injection Hset as <-. simpl. eauto. }
    destruct Hc as [y ->].
    change (jsonify (VObj (assoc_set a y props)))
      with (VObj (jsonify_props (assoc_set a y props))).
    simpl. rewrite (assoc_jsonify_other a b y props Hab), Hst. reflexivity.
  - assert (Hrest : c ++ a :: p' <> []) by (destruct c; discriminate).
    assert (Hrest' : c ++ b :: q' <> []) by (destruct c; discriminate).
    simpl app in *.
    assert (Hna' := Hna). simpl in Hna'.
    apply andb_true_iff in Hna'. destruct Hna' as [Hn Hnc].
    apply negb_true_iff in Hn.
    destruct current as [| | | | | |props]; try discriminate.
    change (jsonify (VObj props)) with (VObj (jsonify_props props)) in Hst.
    injection Hst as Hst.
    rewrite set_loop_cons in Hset by auto.
    destruct (set_loop (descend (prop_get (VObj props) k)) (c ++ a :: p') x)
      as [child' |] eqn:Hchild; [| discriminate].
    injection Hset as <-.
    pose proof (set_loop_object _ _ _ _ Hrest Hchild) as Hco.
    simpl prop_put.
    change (jsonify (VObj (assoc_set k child' props)))
      with (VObj (jsonify_props (assoc_set k child' props))).
    change (find_loop (VObj (jsonify_props (assoc_set k child' props)))
                      (k :: c ++ b :: q'))
      with (find_loop (prop_get (VObj (jsonify_props
                                         (assoc_set k child' props))) k)
                      (c ++ b :: q')).
    replace (prop_get (VObj (jsonify_props (assoc_set k child' props))) k)
      with (jsonify child')
      by (unfold prop_get;
          rewrite assoc_jsonify_set by (apply object_not_undef; exact Hco);
          reflexivity).
    change (find_loop (VObj props) (k :: c ++ b :: q'))
      with (find_loop (prop_get (VObj props) k) (c ++ b :: q')).
    unfold descend in Hchild.
    destruct (is_object (prop_get (VObj props) k)) eqn:Hk.
    + apply (IH _ _ a p' b q' x Hk); auto.
      simpl in *. destruct (assoc k props) as [y |] eqn:Ey; [| discriminate].
      eapply stable_member; eassumption.
    + rewrite (IH (VObj []) child' a p' b q' x eq_refl eq_refl) by
        (auto; apply (no_array_on_descend _ VUndef); apply no_array_on_undef).
      rewrite find_loop_empty_map by exact Hrest'.
      rewrite find_loop_scalar; auto.
Qed.

(** X11. An assignment leaves the other paths alone: when the document
    in the file serializes to itself (as every document that the store has
    written does), and two valid paths of plain names part at some
    segment, a [get] of the one returns after a [set] of the other what it
    returned before. *)
Theorem set_keeps_other_paths :
  forall (file : string) (separator : ascii) (id other : string)
         (w : world) (data v : value)
         (c : list string) (a b : string) (p' q' : list string),
    _validateID separator id = true ->
    _validateID separator other = true ->
    plain_path separator id = true ->
    plain_path separator other = true ->
    split separator id = c ++ a :: p' ->
    split separator other = c ++ b :: q' ->
    a <> b ->
    files w file = Doc data ->
    is_object data = true ->
    jsonify data = data ->
    no_array_on data (split separator id) = true ->
    v <> VUndef ->
    exists w1,
      set file separator id v w = (Ok v, w1)
      /\ get file separator other w1
         = (fst (get file separator other w),
            World (files w1) (log w1 ++ [ReadFile file])).
Proof.
  intros file separator id other w data v c a b p' q'
         Hv Hvo _ _ Hsp Hso Hab Hdoc Hobj Hst Hna Hdef.
  destruct (assign_runs file separator id w data v Hv Hdoc Hobj Hna Hdef)
    as [data' [Hfs [Hw _]]].
  eexists. split.
  - unfold set. rewrite (valid_nonempty _ _ Hv).
    destruct v; try contradiction;
      unfold bind; rewrite (read_doc _ _ _ Hdoc); unfold lift;
      rewrite Hfs, Hw; reflexivity.
  - unfold get. rewrite (valid_nonempty _ _ Hvo). unfold bind.
    rewrite (read_doc _ _ _ Hdoc).
    rewrite (read_doc file _ (jsonify data')) by apply upd_same.
    unfold lift, _find. rewrite Hvo. simpl. rewrite Hso.
    unfold _findAndSet in Hfs. rewrite Hv, Hsp in Hfs. rewrite Hsp in Hna.
    rewrite (set_loop_frame c data data' a p' b q' v Hobj Hst Hna Hab Hfs).
    reflexivity.
Qed.

Lemma set_keeps_other_paths_witness :
  let w := World (upd (fun _ => Missing) "db.json"
                      (Doc (VObj [("user", VObj [("name", VStr "n")])]))) [] in
  exists w1,
    set "db.json" "."%char "user.age" (VNum 3) w = (Ok (VNum 3), w1)
    /\ fst (get "db.json" "."%char "user.name" w1) = Ok (VStr "n").
Proof.
  intros w.
  destruct (set_keeps_other_paths "db.json" "."%char "user.age" "user.name" w
              (VObj [("user", VObj [("name", VStr "n")])]) (VNum 3)
              ["user"] "age" "name" [] []
              eq_refl eq_refl eq_refl eq_refl eq_refl eq_refl
              ltac:(discriminate) eq_refl eq_refl eq_refl eq_refl
              ltac:(discriminate)) as [w1 [H1 H2]].
  exists w1. split; [exact H1 |]. rewrite H2. reflexivity.
Defined.

(** ** Deletion *)

Lemma has_iff_get_fst : forall file separator id w,
  fst (has file separator id w) =
  match fst (get file separator id w) with
  | Ok VNull => Ok false
  | Ok _ => Ok true
  | Throw e => Throw e
  end.
Proof.
  intros file separator id w. unfold has, get.
  destruct (String.eqb id ""); [reflexivity |].
  unfold bind. destruct (_read file w) as [[data | e] w1]; [| reflexivity].
  unfold lift. destruct (_find separator data id) as [[] | e]; reflexivity.
Qed.

Lemma delete_loop_absent : forall parts current,
  parts <> [] ->
  node_at current parts = VUndef ->
  delete_loop current parts = None.
Proof.
  induction parts as [|part parts IH]; intros current Hp Hn; [contradiction |].
  destruct parts as [|p parts].
  - simpl in *. destruct (is_object current); [| reflexivity].
    rewrite Hn. reflexivity.
  - change (delete_loop current (part :: p :: parts))
      with (if is_object current
            then match delete_loop (prop_get current part) (p :: parts) with
                 | Some child' => Some (prop_put current part child')
                 | None => None
                 end
            else None).
    change (node_at current (part :: p :: parts))
      with (if is_object current
            then node_at (prop_get current part) (p :: parts)
            else VUndef) in Hn.
    destruct (is_object current); [| reflexivity].
    rewrite IH; [reflexivity | discriminate | exact Hn].
Qed.

Lemma assoc_jsonify_removed : forall k ps,
  assoc k (jsonify_props (assoc_remove k ps)) = None.
Proof.
  intros k ps. induction ps as [|[k' v'] ps IH]; [reflexivity |].
  unfold assoc_remove in *. simpl filter.
  destruct (String.eqb k k') eqn:E; simpl negb; cbv iota; [exact IH |].
  destruct (value_undef_dec v') as [-> | Hv]; [exact IH |].
  rewrite (jsonify_props_cons k' v' _ Hv). cbn [assoc]. rewrite E. exact IH.
Qed.

Lemma delete_loop_present : forall parts current,
  parts <> [] ->
  is_object current = true ->
  no_array_on current parts = true ->
  node_at current parts <> VUndef ->
  exists current',
    delete_loop current parts = Some current'
    /\ is_object current' = true
    /\ find_loop (jsonify current') parts = VNull.
Proof.
  induction parts as [|part parts IH]; intros current Hp Hobj Hna Hn;
    [contradiction |].
  assert (Hna' := Hna). simpl in Hna'.
  apply andb_true_iff in Hna'. destruct Hna' as [Harr Hnc].
  destruct current as [| | | | | |props]; try discriminate.
  destruct parts as [|p parts].
  - exists (VObj (assoc_remove part props)). simpl in Hn.
    split; [| split; [reflexivity |]].
    + simpl. destruct (assoc part props) as [[] |]; try reflexivity;
        contradiction.
    + change (jsonify (VObj (assoc_remove part props)))
        with (VObj (jsonify_props (assoc_remove part props))).
      simpl. rewrite assoc_jsonify_removed. reflexivity.
  - change (node_at (VObj props) (part :: p :: parts))
      with (node_at (prop_get (VObj props) part) (p :: parts)) in Hn.
    destruct (is_object (prop_get (VObj props) part)) eqn:Hk.
    + destruct (IH (prop_get (VObj props) part)) as [child' [Hd [Ho Hf]]];
        [discriminate | exact Hk | exact Hnc | exact Hn |].
      exists (VObj (assoc_set part child' props)).
      split; [| split; [reflexivity |]].
      * change (delete_loop (VObj props) (part :: p :: parts))
          with (match delete_loop (prop_get (VObj props) part) (p :: parts)
                with
                | Some child' => Some (prop_put (VObj props) part child')
                | None => None
                end).
        rewrite Hd. reflexivity.
      * change (jsonify (VObj (assoc_set part child' props)))
          with (VObj (jsonify_props (assoc_set part child' props))).
        change (find_loop (VObj (jsonify_props (assoc_set part child' props)))
                          (part :: p :: parts))
          with (find_loop (prop_get (VObj (jsonify_props
                                             (assoc_set part child' props)))
                                    part) (p :: parts)).
        replace (prop_get (VObj (jsonify_props (assoc_set part child' props)))
                          part)
          with (jsonify child')
          by (unfold prop_get;
              rewrite assoc_jsonify_set by (apply object_not_undef; exact Ho);
              reflexivity).
        exact Hf.
    + exfalso. apply Hn. apply node_at_scalar; [exact Hk | discriminate].
Qed.

(** X12. [delete] of a path that leads to nothing returns [false] without
    writing.  [delete] of a path that leads to a stored value, [null]
    included, through maps returns [true], and afterwards [get] returns
    [null] and [has] returns [false]. *)
Theorem delete_removes :
  forall (file : string) (separator : ascii) (id : string) (w : world)
         (data : value),
    _validateID separator id = true ->
    plain_path separator id = true ->
    files w file = Doc data ->
    is_object data = true ->
    no_array_on data (split separator id) = true ->
    (node_at data (split separator id) = VUndef ->
     delete file separator id w
     = (Ok false, World (files w) (log w ++ [ReadFile file])))
    /\ (node_at data (split separator id) <> VUndef ->
        exists w1,
          delete file separator id w = (Ok true, w1)
          /\ fst (get file separator id w1) = Ok VNull
          /\ fst (has file separator id w1) = Ok false).
Proof.
  intros file separator id w data Hv _ Hdoc Hobj Hna.
  pose proof (valid_nonempty _ _ Hv) as Hid.
  split.
  - intros Hn. unfold delete. rewrite Hid. unfold bind.
    rewrite (read_doc _ _ _ Hdoc).
    rewrite (delete_loop_absent _ _ (split_nonempty separator id) Hn).
    reflexivity.
  - intros Hn.
    destruct (delete_loop_present _ _ (split_nonempty separator id)
                Hobj Hna Hn) as [data' [Hd [Ho Hf]]].
    eexists. split; [| split].
    + unfold delete. rewrite Hid. unfold bind.
      rewrite (read_doc _ _ _ Hdoc), Hd.
      rewrite write_object; [reflexivity | exact Ho |].
      simpl. rewrite Hdoc. discriminate.
    + apply get_reads; [exact Hv |]. unfold _find. rewrite Hv, Hf. reflexivity.
    + rewrite has_iff_get_fst.
      rewrite (get_reads file separator id _ _ (jsonify data') VNull Hv);
        [reflexivity |].
      unfold _find. rewrite Hv, Hf. reflexivity.
Qed.

Lemma delete_removes_witness :
  let w := World (upd (fun _ => Missing) "db.json"
                      (Doc (VObj [("a", VNull)]))) [] in
  fst (has "db.json" "."%char "a" w) = Ok false
  /\ exists w1,
       delete "db.json" "."%char "a" w = (Ok true, w1)
       /\ fst (get "db.json" "."%char "a" w1) = Ok VNull.
Proof.
  intros w. split; [reflexivity |].
  destruct (proj2 (delete_removes "db.json" "."%char "a" w
                     (VObj [("a", VNull)])
                     eq_refl eq_refl eq_refl eq_refl eq_refl)
              ltac:(discriminate)) as [w1 [H1 [H2 _]]].
  exists w1. split; [exact H1 | exact H2].
Defined.

(** ** Construction *)

(** X13. The task that the constructor enqueues creates an absent file
    with an empty map: the file then holds [{}], by one write and nothing
    else.  A store on that file holds an empty document: [all] returns an
    empty map, and for every valid key path of plain names [get] returns
    [null] and [has] returns [false], each by one read that writes nothing.
    A file that exists, malformed or not, is left as it is, and nothing is
    read or written; a file that cannot be accessed makes the task fail
    with the access error. *)
Theorem init_task_creates :
  forall (file : string) (separator : ascii) (id : string) (w : world),
    _validateID separator id = true ->
    plain_path separator id = true ->
    (files w file = Missing ->
     let w1 := World (upd (files w) file (Doc (VObj [])))
                     (log w ++ [WriteFile file]) in
     let w2 := World (files w1) (log w1 ++ [ReadFile file]) in
     init_task file w = (None, w1)
     /\ all file w1 = (Ok (VObj []), w2)
     /\ get file separator id w1 = (Ok VNull, w2)
     /\ has file separator id w1 = (Ok false, w2))
    /\ (files w file <> Missing -> files w file <> Faulty ->
        init_task file w = (None, w))
    /\ (files w file = Faulty ->
        init_task file w = (Some unableToAccess, w)).
Proof.
  intros file separator id w Hv _. split; [| split].
  - intros Hm w1 w2. unfold init_task. rewrite Hm.
    rewrite write_object; [| reflexivity | rewrite Hm; discriminate].
    change (jsonify (VObj [])) with (VObj []). fold w1.
    split; [reflexivity |].
    assert (Hdoc : files w1 file = Doc (VObj [])) by apply upd_same.
    assert (Hf : _find separator (VObj []) id = Ok VNull).
    { unfold _find. rewrite Hv.
      rewrite find_loop_empty_map by apply split_nonempty. reflexivity. }
    unfold all, get, has. rewrite (valid_nonempty _ _ Hv).
    unfold bind, lift. rewrite (read_doc file w1 (VObj []) Hdoc), Hf.
    repeat split.
  - intros H1 H2. unfold init_task.
    destruct (files w file); try reflexivity; contradiction.
  - intros H. unfold init_task. rewrite H. reflexivity.
Qed.

Lemma init_task_creates_witness :
  let w1 := World (upd (fun _ => Missing) "db.json" (Doc (VObj [])))
                  [WriteFile "db.json"] in
  init_task "db.json" (World (fun _ => Missing) []) = (None, w1)
  /\ get "db.json" "."%char "user.name" w1
     = (Ok VNull,
        World (files w1) [WriteFile "db.json"; ReadFile "db.json"]).
Proof.
  intros w1.
  destruct (proj1 (init_task_creates "db.json" "."%char "user.name"
                     (World (fun _ => Missing) []) eq_refl eq_refl) eq_refl)
    as [H1 [_ [H2 _]]].
  split; [exact H1 | exact H2].
Defined.

Lemma split_without_separator : forall separator id,
  has_sep separator id = false -> split separator id = [id].
Proof.
  intros separator id. induction id as [|c id IH]; intros H; [reflexivity |].
  simpl in H. apply orb_false_iff in H. destruct H as [Hc Hs].
  simpl. rewrite Hc, (IH Hs). reflexivity.
Qed.

Lemma word_without_punctuation : forall c id,
  existsb (Ascii.eqb c) punctuation = true ->
  is_word id = true ->
  has_sep c id = false.
Proof.
  intros c id Hc. induction id as [|d id IH]; intros Hw; [reflexivity |].
  simpl in Hw. apply andb_true_iff in Hw. destruct Hw as [Hd Hw].
  simpl. rewrite (IH Hw), orb_false_r.
  destruct (Ascii.eqb d c) eqn:E; [| reflexivity].
  apply Ascii.eqb_eq in E. subst d. exfalso.
  unfold punctuation in Hc. simpl in Hc.
  repeat (apply orb_true_iff in Hc; destruct Hc as [Hc | Hc];
          [apply Ascii.eqb_eq in Hc; subst c; discriminate |]).
  discriminate.
Qed.

(** X14. A constructor of the facade that accepts its settings has a path
    that ends in [.json], a number of spaces that is not negative, and a
    separator of exactly one character, which is a punctuation mark: a key
    that is not empty and made of letters and digits is then a valid key
    path of one segment.  It writes at most the file of the store, and only
    when that file does not exist. *)
Theorem NopeDB_new_accepts :
  forall (defaultPath : string) (resolve : string -> string)
         (s : settings) (w w' : world) (r : resolved),
    NopeDB_new defaultPath resolve s w = (inr r, w') ->
    endsWith_json (r_path r) = true
    /\ PrimFloat.ltb (r_spaces r) 0 = false
    /\ r_file r = resolve (r_path r)
    /\ (exists c,
          r_separator r = String c EmptyString
          /\ existsb (Ascii.eqb c) punctuation = true
          /\ forall id, id <> "" -> is_word id = true ->
               _validateID c id = true /\ split c id = [id])
    /\ (forall path, path <> r_file r -> files w' path = files w path)
    /\ (files w (r_file r) = Missing /\ files w' (r_file r) = Doc (VObj [])
        \/ files w (r_file r) <> Missing /\ w' = w).
Proof.
  intros defaultPath resolve s w w' r H. unfold NopeDB_new in H.
  set (path := match s_path s with Some p => p | None => defaultPath end) in *.
  set (spaces := match s_spaces s with Some n => n | None => 2%float end) in *.
  set (sep := match s_separator s with Some c => c | None => "." end) in *.
  destruct (endsWith_json path) eqn:Hp; [| discriminate]. simpl in H.
  destruct (PrimFloat.ltb spaces 0) eqn:Hs; [discriminate |].
  destruct (punctuation_test sep) eqn:Hc; [| discriminate]. simpl in H.
  assert (Hr : r = Resolved path spaces sep (resolve path)
               /\ (files w (resolve path) = Missing
                   /\ w' = World (upd (files w) (resolve path) (Doc (VObj [])))
                                 (log w ++ [WriteFile (resolve path)])
                   \/ files w (resolve path) <> Missing /\ w' = w)).
  { destruct (files w (resolve path)) eqn:Hf; inversion H; subst;
      split; try reflexivity;
      solve [ left; auto | right; split; [discriminate | reflexivity] ]. }
  destruct Hr as [-> Hw]. simpl.
  split; [exact Hp |]. split; [exact Hs |]. split; [reflexivity |].
  split; [| split].
  - unfold punctuation_test in Hc.
    destruct sep as [|c [|d sep]]; try discriminate.
    exists c. split; [reflexivity |]. split; [exact Hc |].
    intros id Hid Hw0.
    pose proof (word_without_punctuation c id Hc Hw0) as Hn.
    pose proof (split_without_separator c id Hn) as Hsp.
    split; [| exact Hsp].
    rewrite (validate_by_segments c id), Hsp. simpl.
    apply String.eqb_neq in Hid. rewrite Hid. reflexivity.
  - intros p Hne. destruct Hw as [[_ ->] | [_ ->]]; [| reflexivity].
    simpl. unfold upd. apply String.eqb_neq in Hne. rewrite Hne. reflexivity.
  - destruct Hw as [[Hm ->] | [Hm ->]].
    + left. split; [exact Hm |]. simpl. apply upd_same.
    + right. split; [exact Hm | reflexivity].
Qed.

Lemma NopeDB_new_accepts_witness :
  exists c,
    String c EmptyString = "_"
    /\ _validateID c "counter" = true /\ split c "counter" = ["counter"].
Proof.
  destruct (NopeDB_new_accepts "/srv/db.json" (fun p => p)
              (Settings (Some "/srv/test-db.json") None (Some "_"))
              (World (fun _ => Missing) []) _ _ eq_refl)
    as [_ [_ [_ [[c [Hc [_ Hk]]] _]]]].
  exists c. split; [symmetry; exact Hc |].
  apply Hk; [discriminate | reflexivity].
Defined.

(** ** Operations in the queue *)

Section EventLoopFacts.

Variable State : Type.
Variable R : Type.

Lemma fire_entry_fires : forall source i s (e e' : entry State R) s' evs,
  fire_entry source i s e = Some (e', s', evs) ->
  fire source i s e e' s' evs.
Proof.
  intros source i s e e' s' evs H. unfold fire_entry in H.
  destruct (chained e) as [|[r | effect next]|r] eqn:Hc; try discriminate.
  - destruct (caught e) eqn:Hk.
    + destruct source eqn:Hs; try discriminate;
        injection H as <- <- <-; rewrite <- Hc;
        apply fire_catch; congruence.
    + injection H as <- <- <-. rewrite <- Hk at 1. apply fire_call; assumption.
    + injection H as <- <- <-. rewrite <- Hk at 1. apply fire_skip; assumption.
  - injection H as <- <- <-. apply fire_return. assumption.
  - injection H as <- <- <-. eapply fire_await. eassumption.
Qed.

Lemma tick_from_job : forall rest before s tr (m' : machine State R),
  tick_from before rest s tr = Some m' ->
  job (Machine (before ++ rest) s tr) m'.
Proof.
  induction rest as [|e rest IH]; intros before s tr m' H; [discriminate |].
  simpl in H.
  destruct (fire_entry (tail_status before) (List.length before) s e)
    as [[[e' s'] evs] |] eqn:E.
  - injection H as <-. apply job_at. apply fire_entry_fires. exact E.
  - apply IH in H. rewrite <- app_assoc in H. exact H.
Qed.

Lemma run_loop_reachable : forall n (s0 : State) (m : machine State R),
  reachable s0 m -> reachable s0 (run_loop n m).
Proof.
  induction n as [|n IH]; intros s0 m H; [exact H |].
  simpl. apply IH. unfold tick.
  destruct (tick_from [] (entries m) (shared m) (trace m)) as [m' |] eqn:E;
    [| exact H].
  apply tick_from_job in E. destruct m as [es s tr]. simpl in E.
  eapply reach_step; [exact H |]. apply step_job. exact E.
Qed.

End EventLoopFacts.

Section SubmittedFacts.

Variable State : Type.
Variable R : Type.

Lemma submitted_reachable :
  forall (s0 : State) (bs : list (body State R)) (m : machine State R),
    submitted s0 bs m -> reachable s0 m.
Proof.
  intros s0 bs m H. induction H.
  - apply reach_init.
  - eapply reach_step; [eassumption | apply step_enqueue].
  - eapply reach_step; [eassumption | apply step_job; assumption].
Qed.

(** The queue holds the tasks that were passed to [_enqueue], in the order
    of the calls. *)
Lemma submitted_code :
  forall (s0 : State) (bs : list (body State R)) (m : machine State R),
    submitted s0 bs m -> map (@code State R) (entries m) = bs.
Proof.
  intros s0 bs m H. induction H as [|bs m b _ IH|bs m m' _ IH Hj].
  - reflexivity.
  - simpl. rewrite map_app, IH. reflexivity.
  - rewrite <- IH.
    apply (jobs_code State R m m').
    eapply jobs_step; [exact Hj | apply jobs_refl].
Qed.

Lemma submitted_jobs :
  forall (s0 : State) (bs : list (body State R)) (m m' : machine State R),
    jobs m m' -> submitted s0 bs m -> submitted s0 bs m'.
Proof.
  intros s0 bs m m' H. induction H; intros Hs; [assumption |].
  apply IHjobs. eapply submitted_job; eassumption.
Qed.

Lemma tick_jobs : forall (m : machine State R), jobs m (tick m).
Proof.
  intros m. unfold tick.
  destruct (tick_from [] (entries m) (shared m) (trace m)) as [m' |] eqn:E;
    [| apply jobs_refl].
  apply tick_from_job in E. destruct m as [es s tr]. simpl in E.
  eapply jobs_step; [exact E | apply jobs_refl].
Qed.

Lemma run_loop_jobs : forall n (m : machine State R), jobs m (run_loop n m).
Proof.
  induction n as [|n IH]; intros m; [apply jobs_refl |].
  simpl. eapply jobs_trans; [apply tick_jobs | apply IH].
Qed.

End SubmittedFacts.

(** C1. Let the tasks [bs] be passed to [_enqueue] in this order, at any
    moments, while the event loop runs its jobs in any order it can.  In
    every state so reached the queue holds exactly these tasks, in the order
    of submission, and:
    the events of the task bodies form complete blocks in the order of
    submission, followed by at most one incomplete block, and at most one
    task is running, so the bodies run one at a time, in FIFO order, and
    never interleave;
    the handle of a settled task holds the result that its body returns when
    the submitted bodies run alone, one after the other in the order of
    submission, so a failure is seen by the caller of the failing task only,
    and once every task has settled the resource is in the state that this
    serial run of the submitted tasks leaves;
    no promise derived by [catch] is ever rejected, so no task is skipped,
    and while a task is unsettled a job can run: the failure of a task does
    not stop the queue, which can always be run until every submitted task
    has settled with the results of the serial run. *)
Theorem queue_runs_tasks_in_order :
  forall (State R : Type) (s0 : State) (bs : list (body State R))
         (m : machine State R),
    submitted s0 bs m ->
    let serial := run_serial bs s0 in
    map (@code State R) (entries m) = bs
    /\ serial_from 0 (trace m)
    /\ List.length (filter (@running State R) (entries m)) <= 1
    /\ (forall i e r,
          nth_error (entries m) i = Some e ->
          chained e = Settled r ->
          nth_error bs i = Some (code e)
          /\ nth_error (snd serial) i = Some r)
    /\ (forallb (@settled State R) (entries m) = true ->
        shared m = fst serial
        /\ map (@result_of State R) (entries m) = map Some (snd serial))
    /\ (forall e, In e (entries m) -> caught e <> Rejected)
    /\ (forallb (@settled State R) (entries m) = false ->
        exists m', job m m')
    /\ (exists m',
          jobs m m'
          /\ submitted s0 bs m'
          /\ map (@code State R) (entries m') = bs
          /\ forallb (@settled State R) (entries m') = true
          /\ shared m' = fst serial
          /\ map (@result_of State R) (entries m') = map Some (snd serial)).
Proof.
  intros State R s0 bs m Hs serial.
  pose proof (submitted_reachable State R s0 bs m Hs) as Hr.
  pose proof (submitted_code State R s0 bs m Hs) as Hcode.
  pose proof (reachable_chain State R s0 m Hr) as Hc.
  assert (Hser : serial = run_serial (map (@code State R) (entries m)) s0)
    by (unfold serial; rewrite Hcode; reflexivity).
  split; [exact Hcode |].
  split; [eapply chain_serial; eassumption |].
  split; [eapply chain_exclusive; eassumption |].
  split.
  { intros i e r Hi He. split.
    - rewrite <- Hcode, nth_error_map, Hi. reflexivity.
    - rewrite Hser. eapply chain_results; eassumption. }
  split.
  { intros Hall. rewrite Hser. split.
    - eapply chain_final; eassumption.
    - eapply chain_all_results; eassumption. }
  split; [eapply chain_never_skips; eassumption |].
  split.
  - intros Hall.
    destruct (chain_progress State R _ _ _ _ _ Hc Hall)
      as [l1 [e [l2 [Hes Hfire]]]].
    destruct (Hfire Fulfilled (List.length l1)) as [e' [sh' [evs Hf]]];
      [discriminate |].
    destruct m as [es sh tr]. simpl in *. subst es.
    eexists. apply job_at. exact Hf.
  - destruct (chain_drains State R _ _ _ _ _ Hc [] (trace m) eq_refl)
      as [m' [Hj Hall]].
    assert (Hj' : jobs m m') by (destruct m; exact Hj).
    exists m'. split; [exact Hj' |].
    pose proof (submitted_jobs State R s0 bs m m' Hj' Hs) as Hs'.
    split; [exact Hs' |].
    pose proof (submitted_code State R s0 bs m' Hs') as Hcode'.
    split; [exact Hcode' |].
    split; [exact Hall |].
    pose proof (reachable_chain State R s0 m'
                  (submitted_reachable State R s0 bs m' Hs')) as Hc'.
    assert (Hser' : serial
                    = run_serial (map (@code State R) (entries m')) s0)
      by (unfold serial; rewrite Hcode'; reflexivity).
    rewrite Hser'. split.
    + eapply chain_final; eassumption.
    + eapply chain_all_results; eassumption.
Qed.

(** A task that fails is enqueued, then one that succeeds; the event loop
    runs.  The second task is called once the first has settled, and each
    handle gets the result of its own task. *)
Lemma queue_runs_tasks_in_order_witness :
  let m := run_loop 8 (_enqueue doubling (_enqueue failing (init 0))) in
  m = after_failure
  /\ map (@code nat nat) (entries m) = [failing; doubling]
  /\ serial_from 0 (trace m)
  /\ shared m = 2
  /\ map (@result_of nat nat) (entries m)
     = [Some (Throw nativeError); Some (Ok 1)].
Proof.
  intros m.
  assert (Hs : submitted 0 [failing; doubling] m).
  { apply (submitted_jobs nat nat 0 _ _ m (run_loop_jobs nat nat 8 _)).
    apply (@submitted_enqueue nat nat 0 [failing] _ doubling).
    apply (@submitted_enqueue nat nat 0 [] _ failing).
    apply submitted_init. }
  destruct (queue_runs_tasks_in_order nat nat 0 [failing; doubling] m Hs)
    as [H1 [H2 [_ [_ [H5 _]]]]].
  split; [reflexivity |]. split; [exact H1 |]. split; [exact H2 |].
  destruct (H5 eq_refl) as [H6 H7]. split; [exact H6 | exact H7].
Defined.

Lemma run_serial_tasks :
  forall (A : Type) (bs : list (body world A)) (ts : list (task A)),
    Forall2 performs bs ts ->
    forall w, run_serial bs w = run_tasks ts w.
Proof.
  intros A bs ts H. induction H as [|b t bs ts Hb _ IH]; intros w.
  - reflexivity.
  - simpl. rewrite (Hb w). destruct (t w) as [o w1]. simpl.
    rewrite IH. reflexivity.
Qed.

(** X15. Operations in the queue run in turn.  Let every task of the queue
    be a body that, run alone, does what a storage operation does (as a
    task of one atomic section does, and as the body of [set] does with its
    two points of suspension).  Then in every reachable state the handle of
    a settled task holds the result of its operation in the run of the
    operations one after the other in the order of submission, and once
    all are settled the world is the world after this run. *)
Theorem queued_operations_run_in_turn :
  forall (A : Type) (w0 : world) (m : machine world A) (ts : list (task A)),
    reachable w0 m ->
    Forall2 performs (map (@code world A) (entries m)) ts ->
    (forall i e r,
       nth_error (entries m) i = Some e ->
       chained e = Settled r ->
       nth_error (snd (run_tasks ts w0)) i = Some r)
    /\ (forallb (@settled world A) (entries m) = true ->
        shared m = fst (run_tasks ts w0)
        /\ map (@result_of world A) (entries m)
           = map Some (snd (run_tasks ts w0)))
    /\ (forall t : task A, performs (atomic t) t)
    /\ (forall file separator id v,
          performs (set_staged file separator id v)
                   (set file separator id v)).
Proof.
  intros A w0 m ts Hr Hp.
  pose proof (reachable_chain world A w0 m Hr) as Hc.
  pose proof (run_serial_tasks A _ _ Hp w0) as Hs.
  split; [| split; [| split]].
  - intros i e r Hi He. rewrite <- Hs.
    eapply chain_results; eassumption.
  - intros Hall. rewrite <- Hs. split.
    + eapply chain_final; eassumption.
    + eapply chain_all_results; eassumption.
  - intros t w. apply run_atomic.
  - intros file separator id v w. apply run_set_staged.
Qed.

Lemma queued_operations_run_in_turn_witness :
  let w0 := World (fun _ => Missing) [] in
  let m := run_loop 12
             (_enqueue (set_staged "db.json" "."%char "" (VNum 3))
                (_enqueue (atomic (add "db.json" "."%char "a" (VNum 2)))
                   (_enqueue (set_staged "db.json" "."%char "a" (VNum 1))
                      (init w0)))) in
  files (shared m) "db.json" = Doc (VObj [("a", VNum 3)])
  /\ map (@result_of world value) (entries m)
     = [Some (Ok (VNum 1)); Some (Ok (VNum 3)); Some (Throw undefinedID)].
Proof.
  intros w0 m.
  assert (Hr : reachable w0 m).
  { apply run_loop_reachable.
    repeat (eapply reach_step; [| apply step_enqueue]). apply reach_init. }
  destruct (queued_operations_run_in_turn value w0 m
              [set "db.json" "."%char "a" (VNum 1);
               add "db.json" "."%char "a" (VNum 2);
               set "db.json" "."%char "" (VNum 3)] Hr) as [_ [H _]].
  - replace (map (@code world value) (entries m))
      with [set_staged "db.json" "."%char "a" (VNum 1);
            atomic (add "db.json" "."%char "a" (VNum 2));
            set_staged "db.json" "."%char "" (VNum 3)]
      by (vm_compute; reflexivity).
    constructor; [intros w; apply run_set_staged |].
    constructor; [intros w; apply run_atomic |].
    constructor; [intros w; apply run_set_staged | constructor].
  - destruct (H eq_refl) as [H1 H2]. rewrite H1, H2. split; reflexivity.
Defined.

(** ** Backups that cannot be loaded *)

(** X16. [loadBackup] of a file that is absent, cannot be accessed or does
    not parse throws its own error after the one read, and writes nothing:
    every file is as it was.  [backup] to a path that is empty or does not
    end in [.json] throws before any file access. *)
Theorem unusable_backup :
  forall (file filePath : string) (w : world),
    (forall d, files w filePath <> Doc d) ->
    (filePath <> "" ->
     loadBackup file filePath w
     = (Throw backupUnreadable,
        World (files w) (log w ++ [ReadFile filePath])))
    /\ (filePath = "" ->
        loadBackup file filePath w = (Throw invalidBackupPath, w))
    /\ (endsWith_json filePath = false ->
        exists e, backup file filePath w = (Throw e, w)).
Proof.
  intros file filePath w Hb. split; [| split].
  - intros Hne. apply String.eqb_neq in Hne.
    unfold loadBackup. rewrite Hne. unfold read_parse.
    destruct (files w filePath) eqn:E; try reflexivity.
    exfalso. eapply Hb. reflexivity.
  - intros ->. reflexivity.
  - intros Hj. unfold backup.
    destruct (String.eqb filePath ""); [eexists; reflexivity |].
    rewrite Hj. eexists. reflexivity.
Qed.

Lemma unusable_backup_witness :
  let w := World (upd (upd (fun _ => Missing) "db.json"
                           (Doc (VObj [("a", VNum 1)])))
                      "b.json" (Malformed "{oops")) [] in
  loadBackup "db.json" "b.json" w
  = (Throw backupUnreadable, World (files w) [ReadFile "b.json"]).
Proof.
  intros w.
  apply (proj1 (unusable_backup "db.json" "b.json" w
                  ltac:(intros d; discriminate)));
    discriminate.
Defined.

(** ** A document that is not a map *)

(** X17. When the file holds a scalar or [null] (valid JSON, but neither a
    map nor a sequence), then for every valid key path of plain names
    resolution finds nothing: [get] returns [null], [has] and [delete]
    return [false].  [set], [add] and [push] throw an exception that is not
    a [DatabaseError] (the assignment to a property of a primitive), after
    the read and before any write. *)
Theorem scalar_document :
  forall (file : string) (separator : ascii) (id : string) (w : world)
         (data v : value) (delta : float),
    _validateID separator id = true ->
    plain_path separator id = true ->
    files w file = Doc data ->
    is_object data = false ->
    v <> VUndef ->
    let w' := World (files w) (log w ++ [ReadFile file]) in
    get file separator id w = (Ok VNull, w')
    /\ has file separator id w = (Ok false, w')
    /\ delete file separator id w = (Ok false, w')
    /\ set file separator id v w = (Throw nativeError, w')
    /\ add file separator id (VNum delta) w = (Throw nativeError, w')
    /\ push file separator id v w = (Throw nativeError, w').
Proof.
  intros file separator id w data v delta Hv _ Hdoc Hobj Hdef w'.
  pose proof (valid_nonempty _ _ Hv) as Hid.
  pose proof (split_nonempty separator id) as Hne.
  assert (Hf : _find separator data id = Ok VNull).
  { unfold _find. rewrite Hv, find_loop_scalar; auto. }
  assert (Hs : forall x, _findAndSet separator data id x = Throw nativeError).
  { intros x. unfold _findAndSet. rewrite Hv.
    destruct (split separator id) as [|part [|p parts]]; [contradiction | |];
      simpl; unfold prop_set; rewrite Hobj; reflexivity. }
  assert (Hd : delete_loop data (split separator id) = None).
  { destruct (split separator id) as [|part [|p parts]]; [contradiction | |];
      simpl; rewrite Hobj; reflexivity. }
  unfold get, has, delete, set, add, push. rewrite Hid.
  destruct v; try contradiction;
    unfold bind, lift; rewrite (read_doc _ _ _ Hdoc), Hf, Hd;
    simpl or_zero; rewrite !Hs; repeat split.
Qed.

Lemma scalar_document_witness :
  let w := World (upd (fun _ => Missing) "db.json" (Doc (VNum 5))) [] in
  set "db.json" "."%char "a" (VNum 1) w
  = (Throw nativeError, World (files w) [ReadFile "db.json"]).
Proof.
  intros w.
  apply (scalar_document "db.json" "."%char "a" w (VNum 5) (VNum 1) 1%float
           eq_refl eq_refl eq_refl eq_refl ltac:(discriminate)).
Defined.

(** ** The file at rest *)

Lemma keeps_ret : forall (A : Type) file (a : A), keeps file (ret a).
Proof. intros A file a w H. exact H. Qed.

Lemma keeps_throw : forall (A : Type) file e, keeps file (@throw A e).
Proof. intros A file e w H. exact H. Qed.

Lemma keeps_lift : forall (A : Type) file (o : outcome A), keeps file (lift o).
Proof. intros A file o w H. exact H. Qed.

Lemma keeps_bind : forall (A B : Type) file (t : task A) (k : A -> task B),
  keeps file t -> (forall a, keeps file (k a)) -> keeps file (bind t k).
Proof.
  intros A B file t k Ht Hk w H. unfold bind.
  specialize (Ht w H). destruct (t w) as [[a | e] w1]; simpl in *.
  - apply Hk. exact Ht.
  - exact Ht.
Qed.

Lemma keeps_write_json : forall file path data,
  keeps file (write_json path data).
Proof.
  intros file path data w H. unfold write_json.
  destruct (value_undef_dec data) as [-> | Hd]; [exact H |].
  assert (G : well_kept file
                (snd (match files w path with
                      | Faulty =>
                          (Throw nativeError,
                           World (files w) (log w ++ [WriteFile path]))
                      | _ =>
                          (Ok tt,
                           World (upd (files w) path (Doc (jsonify data)))
                                 (log w ++ [WriteFile path]))
                      end))).
  { assert (U : well_kept file
                  (World (upd (files w) path (Doc (jsonify data)))
                         (log w ++ [WriteFile path]))).
    { intros d Hdoc. simpl in Hdoc. unfold upd in Hdoc.
      destruct (String.eqb file path).
      - injection Hdoc as <-. split; [apply jsonify_json | apply jsonify_idem].
      - apply H. exact Hdoc. }
    destruct (files w path); try exact U. exact H. }
  destruct data; try exact G. contradiction.
Qed.

Lemma keeps_read : forall file, keeps file (_read file).
Proof.
  intros file w H. unfold _read, read_parse.
  destruct (files w file) eqn:E; try exact H.
  apply (keeps_bind _ _ file (_write file (VObj []))
           (fun _ => ret (VObj []))).
  - apply keeps_write_json.
  - intros a. apply keeps_ret.
  - exact H.
Qed.

(** X18. The store keeps its file well: if the file holds no document, or
    one that JSON represents as it is, then so it does after every
    operation, whether the operation returns or throws.  The store never
    leaves in its file anything but what [JSON.parse] gives back
    unchanged. *)
Theorem store_keeps_file :
  forall (file : string) (separator : ascii) (id filePath : string)
         (v : value) (confirm : bool) (w : world),
    well_kept file w ->
    well_kept file (snd (set file separator id v w))
    /\ well_kept file (snd (get file separator id w))
    /\ well_kept file (snd (add file separator id v w))
    /\ well_kept file (snd (subtract file separator id v w))
    /\ well_kept file (snd (all file w))
    /\ well_kept file (snd (has file separator id w))
    /\ well_kept file (snd (delete file separator id w))
    /\ well_kept file (snd (clear file confirm w))
    /\ well_kept file (snd (push file separator id v w))
    /\ well_kept file (snd (backup file filePath w))
    /\ well_kept file (snd (loadBackup file filePath w)).
Proof.
  intros file separator id filePath v confirm w H.
  assert (K : forall (A : Type) (t : task A),
            keeps file t -> well_kept file (snd (t w))).
  { intros A t Ht. apply Ht. exact H. }
  assert (Hadd : forall x, keeps file (add file separator id x)).
  { intros x. unfold add.
    destruct (String.eqb id ""); [apply keeps_throw |].
    destruct x; try apply keeps_throw.
    apply keeps_bind; [apply keeps_read | intros data].
    apply keeps_bind; [apply keeps_lift | intros cur].
    destruct cur; try apply keeps_throw;
      (apply keeps_bind; [apply keeps_lift | intros data']);
      (apply keeps_bind; [apply keeps_write_json | intros u]);
      apply keeps_ret. }
  repeat match goal with |- _ /\ _ => split end; apply K.
  - unfold set. destruct (String.eqb id ""); [apply keeps_throw |].
    destruct v; try apply keeps_throw;
      (apply keeps_bind; [apply keeps_read | intros data]);
      (apply keeps_bind; [apply keeps_lift | intros data']);
      (apply keeps_bind; [apply keeps_write_json | intros u]);
      apply keeps_ret.
  - unfold get. destruct (String.eqb id ""); [apply keeps_throw |].
    apply keeps_bind; [apply keeps_read | intros data]. apply keeps_lift.
  - apply Hadd.
  - unfold subtract. destruct v; try apply keeps_throw. apply Hadd.
  - apply keeps_read.
  - unfold has. destruct (String.eqb id ""); [apply keeps_throw |].
    apply keeps_bind; [apply keeps_read | intros data].
    apply keeps_bind; [apply keeps_lift | intros found]. apply keeps_ret.
  - unfold delete. destruct (String.eqb id ""); [apply keeps_throw |].
    apply keeps_bind; [apply keeps_read | intros data].
    destruct (delete_loop data (split separator id)); [| apply keeps_ret].
    apply keeps_bind; [apply keeps_write_json | intros u]. apply keeps_ret.
  - unfold clear. destruct confirm; [| apply keeps_throw].
    apply keeps_bind; [apply keeps_write_json | intros u]. apply keeps_ret.
  - unfold push. destruct (String.eqb id ""); [apply keeps_throw |].
    destruct v; try apply keeps_throw;
      (apply keeps_bind; [apply keeps_read | intros data]);
      (apply keeps_bind; [apply keeps_lift | intros found]);
      destruct found; try apply keeps_throw;
      (apply keeps_bind; [apply keeps_lift | intros data']);
      (apply keeps_bind; [apply keeps_write_json | intros u]);
      apply keeps_ret.
  - unfold backup. destruct (String.eqb filePath ""); [apply keeps_throw |].
    destruct (negb (endsWith_json filePath)); [apply keeps_throw |].
    apply keeps_bind; [apply keeps_read | intros data].
    apply keeps_bind; [apply keeps_write_json | intros u]. apply keeps_ret.
  - unfold loadBackup. destruct (String.eqb filePath ""); [apply keeps_throw |].
    intros w0 H0. unfold read_parse.
    assert (H1 : well_kept file
                   (World (files w0) (log w0 ++ [ReadFile filePath])))
      by exact H0.
    destruct (files w0 filePath); try exact H1.
    apply (keeps_bind _ _ file (_write file v0) (fun _ => ret true));
      [apply keeps_write_json | intros u; apply keeps_ret | exact H1].
Qed.

Lemma store_keeps_file_witness :
  let w := World (fun _ => Malformed "{oops") [] in
  well_kept "db.json" (snd (clear "db.json" true w)).
Proof.
  intros w.
  refine (proj1 (proj2 (proj2 (proj2 (proj2 (proj2 (proj2 (proj2
    (store_keeps_file "db.json" "."%char "a" "b.json" VNull true w _))))))))).
  intros d Hd. discriminate.
Defined.
